(** * The Wonderland Engine JavaScript API (src/wonderland.ts)

    A shallow embedding of the binding layer between host code and the
    native engine runtime: the temporary memory ("scratch arena"), the
    wrapper caches, the mesh attribute accessor, the material property
    proxy, the component / object wrappers and the ray hit block.

    Conventions.
    - Numbers that are integers by construction (handles, pointers, sizes,
      lengths, indices, counts) are [Z]; payload numbers (material values,
      vertex data) are an arbitrary type [number] with the conversions a
      typed array performs ([JSNumber]).
    - The WASM heap is a list of bytes; typed arrays are views
      (element type, byte offset, length) decoded little-endian.
    - Every call across the boundary goes through [call], which appends
      the call to the log [calls] and lets the runtime (an arbitrary
      [NativeRuntime]) answer and change the heap.
    - Code that can throw returns an [Outcome]; the world in a [Threw]
      carries the effects that happened before the throw. *)

From Stdlib Require Import ZArith QArith Qround Lia.
From Stdlib.Strings Require Import Byte.
From stdpp Require Import base option list gmap strings pretty.

Local Open Scope Z_scope.

(** ** JavaScript arithmetic on integer-valued numbers *)

Module JS.

(** ToInt32: the wrap-around applied by the bitwise operators. *)
Definition ToInt32 (z : Z) : Z := (z + 2 ^ 31) mod 2 ^ 32 - 2 ^ 31.

(** [a >> n] *)
Definition shr (a n : Z) : Z := Z.shiftr (ToInt32 a) (n mod 32).

(** [a & b] *)
Definition band (a b : Z) : Z := Z.land (ToInt32 a) (ToInt32 b).

(** [a % b]; [None] is NaN (division by zero). The sign follows the
    dividend, as [Z.rem] does. *)
Definition rem (a b : Z) : option Z :=
  if b =? 0 then None else Some (Z.rem a b).

(** [x !== 0] where [x] is the result of a [%]. *)
Definition neq_zero (x : option Z) : bool :=
  match x with
  | Some r => negb (r =? 0)
  | None => true
  end.

(** [a / b] for [b] non-zero, as an exact rational. *)
Definition div (a b : Z) : Q := (inject_Z a / inject_Z b)%Q.

Definition Math_ceil (q : Q) : Z := Qceiling q.

(** [Math.min(x, b)] where [x] may be [undefined] ([None]), which
    converts to NaN and makes the result NaN ([None]). *)
Definition Math_min (x : option Z) (b : Z) : option Z :=
  match x with
  | Some a => Some (Z.min a b)
  | None => None
  end.

End JS.

(** ** The WASM heap and typed array views *)

Definition Heap := list byte.

Inductive ElementType := Uint8 | Uint16 | Uint32 | Int32 | Float32.

Definition BYTES_PER_ELEMENT (k : ElementType) : Z :=
  match k with
  | Uint8 => 1
  | Uint16 => 2
  | Uint32 | Int32 | Float32 => 4
  end.

(** A typed array over the heap's buffer. *)
Record TypedArray := mkTypedArray {
  elementType : ElementType;
  byteOffset : Z;
  len : Z
}.

Fixpoint le_combine (bs : list byte) : Z :=
  match bs with
  | [] => 0
  | b :: bs' => Z.of_N (Byte.to_N b) + 256 * le_combine bs'
  end.

Definition byte_of_Z (z : Z) : byte :=
  default Byte.x00 (Byte.of_N (Z.to_N (z mod 256))).

Fixpoint le_split (n : nat) (z : Z) : list byte :=
  match n with
  | O => []
  | S n' => byte_of_Z z :: le_split n' (z / 256)
  end.

Definition byteLength (h : Heap) : Z := Z.of_nat (length h).

Definition in_heap (h : Heap) (addr n : Z) : bool :=
  (0 <=? addr) && (0 <=? n) && (addr + n <=? byteLength h).

Definition load (h : Heap) (addr : Z) (n : Z) : option Z :=
  if in_heap h addr n
  then Some (le_combine (take (Z.to_nat n) (drop (Z.to_nat addr) h)))
  else None.

Definition store (h : Heap) (addr : Z) (n : Z) (bits : Z) : Heap :=
  if in_heap h addr n
  then take (Z.to_nat addr) h ++ le_split (Z.to_nat n) bits
         ++ drop (Z.to_nat (addr + n)) h
  else h.

(** [new T(buffer, byteOffset, length)]: a RangeError ([None]) when the
    offset is negative or misaligned, or the view does not fit. *)
Definition new_TypedArray (h : Heap) (k : ElementType) (off n : Z)
  : option TypedArray :=
  if (0 <=? off) && (off mod BYTES_PER_ELEMENT k =? 0) && (0 <=? n)
     && (off + n * BYTES_PER_ELEMENT k <=? byteLength h)
  then Some (mkTypedArray k off n)
  else None.

(** The raw bits of element [i]; [None] is [undefined] (out of range). *)
Definition element (h : Heap) (a : TypedArray) (i : Z) : option Z :=
  if (0 <=? i) && (i <? len a)
  then load h (byteOffset a + i * BYTES_PER_ELEMENT (elementType a))
         (BYTES_PER_ELEMENT (elementType a))
  else None.

(** [a[i] = bits]: ignored out of range. *)
Definition set_element (h : Heap) (a : TypedArray) (i : Z) (bits : Z) : Heap :=
  if (0 <=? i) && (i <? len a)
  then store h (byteOffset a + i * BYTES_PER_ELEMENT (elementType a))
         (BYTES_PER_ELEMENT (elementType a)) bits
  else h.

(** [HEAPU32], [HEAPF32]: views over the whole buffer. *)
Definition HEAPU32 (h : Heap) : TypedArray :=
  mkTypedArray Uint32 0 (byteLength h / 4).

(** ** Payload numbers *)

Class JSNumber (number : Type) := {
  (** the number read from an integer view *)
  of_Z : Z -> number;
  (** ToUint32 of a number, as stored into an integer view (the view keeps
      the low bits it has room for) *)
  to_bits : number -> Z;
  (** the number a float32 bit pattern denotes *)
  f32_load : Z -> number;
  (** the bit pattern stored for a number written to a Float32Array *)
  f32_store : number -> Z;
  NaN : number;
  (** ToString of a number *)
  number_to_string : number -> string
}.

(** ** Handles held by wrappers

    A wrapper's handle field is typed [number] in the source but is forced
    to [undefined] or [null] by [destroy]. *)
Inductive Handle :=
| HNum (h : Z)
| HUndefined
| HNull.

(** [a == b] on handle fields: numbers compare by value, [undefined] and
    [null] are equal to each other and to nothing else. *)
Definition loose_eq (a b : Handle) : bool :=
  match a, b with
  | HNum x, HNum y => x =? y
  | HNum _, _ | _, HNum _ => false
  | _, _ => true
  end.

(** [MaterialParamType] *)
Module MaterialParamType.
Definition UnsignedInt : Z := 0.
Definition Int : Z := 1.
Definition Float : Z := 2.
Definition Sampler : Z := 3.
Definition Font : Z := 4.
End MaterialParamType.

(** ** JavaScript values reaching the material proxy *)

Inductive Value (number : Type) :=
| VUndefined
| VNull
| VBool (b : bool)
| VNumber (x : number)
| VArray (xs : list number)           (* a plain array of numbers *)
| VTypedArray (a : TypedArray)        (* a view on the heap *)
| VTexture (_id _imageIndex : Value number). (* an instance of Texture *)

Arguments VUndefined {number}.
Arguments VNull {number}.
Arguments VBool {number} b.
Arguments VNumber {number} x.
Arguments VArray {number} xs.
Arguments VTypedArray {number} a.
Arguments VTexture {number} _id _imageIndex.

(** ** The native boundary *)

(** The native entry points the modelled code calls, with their arguments
    in source order. *)
Inductive NativeCall (number : Type) :=
| _malloc (size : Z)
| _free (ptr : Z)
| _wl_component_remove (manager id : Handle)
| _wl_component_setActive (manager id : Handle) (active : bool)
| _wl_component_isActive (manager id : Handle)
| _wl_scene_remove_object (objectId : Handle)
| _wl_object_set_dirty (objectId : Handle)
| _wl_mesh_get_attribute_values
    (attribute formatSize offset stride destFormatSize dest bytes : Z)
| _wl_mesh_set_attribute_values
    (attribute srcFormatSize src bytes formatSize offset stride : Z)
| _wl_material_get_shader (index : Value number)
| _wl_material_get_param_value (index : Value number) (paramIndex ptr : Z)
| _wl_material_set_param_value_uint
    (index : Value number) (paramIndex : Z) (v : Value number)
| _wl_material_set_param_value_float
    (index : Value number) (paramIndex ptr : Z) (count : Value number).

Arguments _malloc {number} size.
Arguments _free {number} ptr.
Arguments _wl_component_remove {number} manager id.
Arguments _wl_component_setActive {number} manager id active.
Arguments _wl_component_isActive {number} manager id.
Arguments _wl_scene_remove_object {number} objectId.
Arguments _wl_object_set_dirty {number} objectId.
Arguments _wl_mesh_get_attribute_values {number}.
Arguments _wl_mesh_set_attribute_values {number}.
Arguments _wl_material_get_shader {number} index.
Arguments _wl_material_get_param_value {number}.
Arguments _wl_material_set_param_value_uint {number}.
Arguments _wl_material_set_param_value_float {number}.

(** The runtime behind the boundary: an arbitrary state [Engine] and an
    arbitrary answer to every call, which may also rewrite (and grow) the
    heap. *)
Class NativeRuntime (number Engine : Type) := {
  native_call : NativeCall number -> Engine -> Heap -> Z * Engine * Heap
}.

(** ** Wrappers *)

(** [class $Object] *)
Record Object := mkObject {
  objectId : Handle
}.

Inductive ComponentClass :=
| CollisionComponent
| TextComponent
| ViewComponent
| MeshComponent
| InputComponent
| LightComponent
| AnimationComponent
| PhysXComponent
| CustomComponent (TypeName : string). (* a registered class extending Component *)

(** [class Component] and its subclasses, which add no field. [_object]
    is a reference into the object store. *)
Record Component := mkComponent {
  class : ComponentClass;
  _manager : Handle;
  _id : Handle;
  _object : option nat;
  _type : option string
}.

(** One entry of a material definition: [{index, type: {type, componentCount}}]. *)
Record MaterialParam := mkMaterialParam {
  param_index : Z;
  param_type : Z;
  param_componentCount : Z
}.

(** ** The world: module-level state of wonderland.ts and what it talks to *)

Record Native (number Engine : Type) := mkNative {
  engine : Engine;
  HEAP : Heap;
  calls : list (NativeCall number)   (* oldest first *)
}.
Arguments mkNative {number Engine}.
Arguments engine {number Engine}.
Arguments HEAP {number Engine}.
Arguments calls {number Engine}.

Record TempMemory := mkTempMemory {
  _tempMem : Z;                      (* 0 stands for the initial null *)
  _tempMemSize : Z;
  _tempMemFloat : TypedArray;
  _tempMemInt : TypedArray;
  _tempMemUint32 : TypedArray;
  _tempMemUint16 : TypedArray;
  _tempMemUint8 : TypedArray
}.

(** Wrapper instances live in two stores; a reference is an index. The
    caches map handles to references. *)
Record Wrappers := mkWrappers {
  objects : list Object;
  components : list Component;
  ObjectCache : gmap Z nat;
  ComponentCache : gmap Z (gmap Z nat)
}.

(** The tables of the runtime module [_WL] read by the modelled code. *)
Record WLTables (number : Type) := mkWLTables {
  _componentTypeIndices : gmap string nat;
  _componentTypes : list string;     (* registered constructors, by TypeName *)
  _materialDefinitions : Value number -> option (gmap string MaterialParam)
}.
Arguments mkWLTables {number}.
Arguments _componentTypeIndices {number}.
Arguments _componentTypes {number}.
Arguments _materialDefinitions {number}.

Record World (number Engine : Type) := mkWorld {
  native : Native number Engine;
  temp : TempMemory;
  wrappers : Wrappers;
  _WL : WLTables number;
  console : list Z;                                  (* sizes logged *)
  textures : list (Value number * Value number)      (* id, texture; newest first *)
}.
Arguments mkWorld {number Engine}.
Arguments native {number Engine}.
Arguments temp {number Engine}.
Arguments wrappers {number Engine}.
Arguments _WL {number Engine}.
Arguments console {number Engine}.
Arguments textures {number Engine}.

(** ** Outcomes *)

Inductive Exception :=
| Error (message : string)
| TypeError (message : string)
| RangeError (message : string).

Inductive Outcome (W A : Type) :=
| Ok (a : A) (w : W)
| Threw (e : Exception) (w : W).
Arguments Ok {W A}.
Arguments Threw {W A}.

Definition world_of {W A} (o : Outcome W A) : W :=
  match o with
  | Ok _ w => w
  | Threw _ w => w
  end.

(** The computation returned, or threw a RangeError (and no other kind
    of exception). *)
Definition returns_or_RangeError {W A} (o : Outcome W A) : Prop :=
  match o with
  | Ok _ _ => True
  | Threw (RangeError _) _ => True
  | Threw _ _ => False
  end.

Definition M (W A : Type) : Type := W -> Outcome W A.

Definition ret {W A} (a : A) : M W A := fun w => Ok a w.

Definition bind {W A B} (m : M W A) (k : A -> M W B) : M W B :=
  fun w =>
    match m w with
    | Ok a w' => k a w'
    | Threw e w' => Threw e w'
    end.

Definition throw {W A} (e : Exception) : M W A := fun w => Threw e w.

Definition gets {W A} (f : W -> A) : M W A := fun w => Ok (f w) w.

Definition modify {W} (f : W -> W) : M W unit := fun w => Ok tt (f w).

Declare Scope js_scope.
Delimit Scope js_scope with js.
Notation "x <- m ;; k" := (bind m (fun x => k))
  (at level 100, m at next level, right associativity) : js_scope.
Notation "m ;;; k" := (bind m (fun _ => k))
  (at level 100, right associativity) : js_scope.

(** [for (let i = 0; i < n; ++i) body(i)] *)
Fixpoint for_range {W} (i : Z) (n : nat) (body : Z -> M W unit) : M W unit :=
  match n with
  | O => ret tt
  | S n' => bind (body i) (fun _ => for_range (i + 1) n' body)
  end.

(** ** Module-level state and temporary memory *)

Section TempMem.

Context {number Engine : Type} `{NativeRuntime number Engine}.

Local Abbreviation World := (World number Engine).

Definition set_native (n : Native number Engine) (w : World) : World :=
  mkWorld n (temp w) (wrappers w) (_WL w) (console w) (textures w).

Definition set_temp (t : TempMemory) (w : World) : World :=
  mkWorld (native w) t (wrappers w) (_WL w) (console w) (textures w).

Definition set_wrappers (c : Wrappers) (w : World) : World :=
  mkWorld (native w) (temp w) c (_WL w) (console w) (textures w).

Definition set_console (l : list Z) (w : World) : World :=
  mkWorld (native w) (temp w) (wrappers w) (_WL w) l (textures w).

Definition set_textures (l : list (Value number * Value number)) (w : World)
  : World :=
  mkWorld (native w) (temp w) (wrappers w) (_WL w) (console w) l.

Definition set_HEAP (h : Heap) (w : World) : World :=
  set_native (mkNative (engine (native w)) h (calls (native w))) w.

(** A call across the boundary: logged, answered by the runtime. *)
Definition call (c : NativeCall number) : M World Z :=
  fun w =>
    let '(r, e, h) := native_call c (engine (native w)) (HEAP (native w)) in
    Ok r (set_native (mkNative e h (calls (native w) ++ [c])) w).

Definition console_log (size : Z) : M World unit :=
  modify (fun w => set_console (console w ++ [size]) w).

Definition new_view (k : ElementType) (off n : Z) : M World TypedArray :=
  fun w =>
    match new_TypedArray (HEAP (native w)) k off n with
    | Some a => Ok a w
    | None => Threw (RangeError "Invalid typed array length or offset") w
    end.

Definition set_tempMemSize (size : Z) (t : TempMemory) : TempMemory :=
  mkTempMemory (_tempMem t) size (_tempMemFloat t) (_tempMemInt t)
    (_tempMemUint32 t) (_tempMemUint16 t) (_tempMemUint8 t).

Definition set_tempMem (p : Z) (t : TempMemory) : TempMemory :=
  mkTempMemory p (_tempMemSize t) (_tempMemFloat t) (_tempMemInt t)
    (_tempMemUint32 t) (_tempMemUint16 t) (_tempMemUint8 t).

Definition set_tempMemFloat (a : TypedArray) (t : TempMemory) : TempMemory :=
  mkTempMemory (_tempMem t) (_tempMemSize t) a (_tempMemInt t)
    (_tempMemUint32 t) (_tempMemUint16 t) (_tempMemUint8 t).

Definition set_tempMemInt (a : TypedArray) (t : TempMemory) : TempMemory :=
  mkTempMemory (_tempMem t) (_tempMemSize t) (_tempMemFloat t) a
    (_tempMemUint32 t) (_tempMemUint16 t) (_tempMemUint8 t).

Definition set_tempMemUint32 (a : TypedArray) (t : TempMemory) : TempMemory :=
  mkTempMemory (_tempMem t) (_tempMemSize t) (_tempMemFloat t) (_tempMemInt t)
    a (_tempMemUint16 t) (_tempMemUint8 t).

Definition set_tempMemUint16 (a : TypedArray) (t : TempMemory) : TempMemory :=
  mkTempMemory (_tempMem t) (_tempMemSize t) (_tempMemFloat t) (_tempMemInt t)
    (_tempMemUint32 t) a (_tempMemUint8 t).

Definition set_tempMemUint8 (a : TypedArray) (t : TempMemory) : TempMemory :=
  mkTempMemory (_tempMem t) (_tempMemSize t) (_tempMemFloat t) (_tempMemInt t)
    (_tempMemUint32 t) (_tempMemUint16 t) a.

Definition update_temp (f : TempMemory -> TempMemory) : M World unit :=
  modify (fun w => set_temp (f (temp w)) w).

Local Open Scope js_scope.

(** [updateTempMemory()] *)
Definition updateTempMemory : M World unit :=
  p <- gets (fun w => _tempMem (temp w));;
  size <- gets (fun w => _tempMemSize (temp w));;
  f <- new_view Float32 p (JS.shr size 2);;
  update_temp (set_tempMemFloat f);;;
  i <- new_view Int32 p (JS.shr size 2);;
  update_temp (set_tempMemInt i);;;
  u <- new_view Uint32 p (JS.shr size 2);;
  update_temp (set_tempMemUint32 u);;;
  s <- new_view Uint16 p (JS.shr size 1);;
  update_temp (set_tempMemUint16 s);;;
  b <- new_view Uint8 p size;;
  update_temp (set_tempMemUint8 b).

(** [allocateTempMemory(size)] *)
Definition allocateTempMemory (size : Z) : M World unit :=
  console_log size;;;
  update_temp (set_tempMemSize size);;;
  old <- gets (fun w => _tempMem (temp w));;
  (if old =? 0 then ret tt else (_ <- call (_free old);; ret tt));;;
  size' <- gets (fun w => _tempMemSize (temp w));;
  p <- call (_malloc size');;
  update_temp (set_tempMem p);;;
  updateTempMemory.

(** [requireTempMem(size)] *)
Definition requireTempMem (size : Z) : M World unit :=
  cur <- gets (fun w => _tempMemSize (temp w));;
  if size <=? cur then ret tt
  else
    (* Grow in 1kb increments *)
    allocateTempMemory (JS.Math_ceil (JS.div size 1024) * 1024).

(** [getTempBufferU8(count)] and its siblings *)
Definition getTempBufferU8 (count : Z) : M World TypedArray :=
  requireTempMem count;;;
  gets (fun w => _tempMemUint8 (temp w)).

Definition getTempBufferU16 (count : Z) : M World TypedArray :=
  requireTempMem (count * 2);;;
  gets (fun w => _tempMemUint16 (temp w)).

Definition getTempBufferU32 (count : Z) : M World TypedArray :=
  requireTempMem (count * 4);;;
  gets (fun w => _tempMemUint32 (temp w)).

Definition getTempBufferI32 (count : Z) : M World TypedArray :=
  requireTempMem (count * 4);;;
  gets (fun w => _tempMemInt (temp w)).

Definition getTempBufferF32 (count : Z) : M World TypedArray :=
  requireTempMem (count * 4);;;
  gets (fun w => _tempMemFloat (temp w)).

(** A run of requests, one after the other (a throw does not stop the
    host from calling again). *)
Fixpoint requireTempMem_all (sizes : list Z) (w : World) : World :=
  match sizes with
  | [] => w
  | s :: rest => requireTempMem_all rest (world_of (requireTempMem s w))
  end.

End TempMem.

(** ** Wrapper caches: [_wrapObject], [_wrapComponent] *)

(** [x | undefined | null] for a parameter that takes a wrapper. *)
Inductive Nullable (A : Type) :=
| null
| undefined
| ref (a : A).
Arguments null {A}.
Arguments undefined {A}.
Arguments ref {A} a.

Section Wrap.

Context {number Engine : Type} `{NativeRuntime number Engine}.

Local Abbreviation World := (World number Engine).

Definition set_objects (m : list Object) (c : Wrappers) : Wrappers :=
  mkWrappers m (components c) (ObjectCache c) (ComponentCache c).

Definition set_components (m : list Component) (c : Wrappers) : Wrappers :=
  mkWrappers (objects c) m (ObjectCache c) (ComponentCache c).

Definition set_ObjectCache (m : gmap Z nat) (c : Wrappers) : Wrappers :=
  mkWrappers (objects c) (components c) m (ComponentCache c).

Definition set_ComponentCache (m : gmap Z (gmap Z nat)) (c : Wrappers)
  : Wrappers :=
  mkWrappers (objects c) (components c) (ObjectCache c) m.

Definition update_wrappers (f : Wrappers -> Wrappers) : M World unit :=
  modify (fun w => set_wrappers (f (wrappers w)) w).

Local Open Scope js_scope.

(** [new $Object(o)]: a new instance at the end of the store. *)
Definition new_Object (o : Handle) : M World nat :=
  r <- gets (fun w => length (objects (wrappers w)));;
  update_wrappers (fun c => set_objects (objects c ++ [mkObject o]) c);;;
  ret r.

(** [new C(managerIndex, id)] for a class [C] extending Component; the
    base constructor sets the four fields. *)
Definition new_Component (C : ComponentClass) (managerIndex id : Handle)
  : M World nat :=
  r <- gets (fun w => length (components (wrappers w)));;
  update_wrappers (fun c =>
    set_components
      (components c ++ [mkComponent C managerIndex id None None]) c);;;
  ret r.

(** Writes to the fields of an instance. *)
Definition write_objectId (o : nat) (h : Handle) : M World unit :=
  update_wrappers (fun c =>
    set_objects (<[o := mkObject h]> (objects c)) c).

Definition write_manager_id (r : nat) (m i : Handle) : M World unit :=
  update_wrappers (fun c =>
    set_components
      (alter (fun x => mkComponent (class x) m i (_object x) (_type x)) r
         (components c)) c).

(** [_wrapObject(objectId)] *)
Definition _wrapObject (objectId : Z) : M World nat :=
  cache <- gets (fun w => ObjectCache (wrappers w));;
  o <- match cache !! objectId with
       | Some o => ret o
       | None =>
           o <- new_Object (HNum objectId);;
           update_wrappers (fun c =>
             set_ObjectCache (<[objectId := o]> (ObjectCache c)) c);;;
           ret o
       end;;
  write_objectId o (HNum objectId);;;
  ret o.

(** [new constructor()] for a type that is not one of the native ones:
    the constructor is looked up by name in the registry of [_WL]; calling
    [new] on [undefined] is a TypeError. A registered constructor runs
    with no argument, so the base constructor's defaults (-1) apply. *)
Definition new_registered (type : string) : M World nat :=
  typeIndex <- gets (fun w => _componentTypeIndices (_WL w) !! type);;
  constructor <- gets (fun w =>
    i ← typeIndex; _componentTypes (_WL w) !! i);;
  match constructor with
  | Some TypeName =>
      new_Component (CustomComponent TypeName) (HNum (-1)) (HNum (-1))
  | None => throw (TypeError "constructor is not a constructor")
  end.

(** [_wrapComponent(type, componentType, componentId)]; [None] is [null]. *)
Definition _wrapComponent (type : string) (componentType componentId : Z)
  : M World (option nat) :=
  if componentId <? 0 then ret None
  else
    cache <- gets (fun w => ComponentCache (wrappers w));;
    c <- match cache !! componentType with
         | Some c => ret c
         | None =>
             update_wrappers (fun x =>
               set_ComponentCache (<[componentType := ∅]> (ComponentCache x)) x);;;
             ret ∅
         end;;
    match c !! componentId with
    | Some r => ret (Some r)
    | None =>
        component <-
          (if String.eqb type "collision" then
             new_Component CollisionComponent (HNum componentType) (HNum componentId)
           else if String.eqb type "text" then
             new_Component TextComponent (HNum componentType) (HNum componentId)
           else if String.eqb type "view" then
             new_Component ViewComponent (HNum componentType) (HNum componentId)
           else if String.eqb type "mesh" then
             new_Component MeshComponent (HNum componentType) (HNum componentId)
           else if String.eqb type "input" then
             new_Component InputComponent (HNum componentType) (HNum componentId)
           else if String.eqb type "light" then
             new_Component LightComponent (HNum componentType) (HNum componentId)
           else if String.eqb type "animation" then
             new_Component AnimationComponent (HNum componentType) (HNum componentId)
           else if String.eqb type "physx" then
             new_Component PhysXComponent (HNum componentType) (HNum componentId)
           else new_registered type);;
        (* Sets the manager and identifier from the outside *)
        write_manager_id component (HNum componentType) (HNum componentId);;;
        update_wrappers (fun x =>
          set_ComponentCache
            (<[componentType :=
                 <[componentId := component]>
                   (default ∅ (ComponentCache x !! componentType))]>
               (ComponentCache x)) x);;;
        ret (Some component)
    end.

(** The type names [_wrapComponent] resolves: the eight native ones and
    those registered with a constructor. *)
Definition native_type (type : string) : bool :=
  bool_decide (type ∈ ["collision"; "text"; "view"; "mesh"; "input"; "light";
                       "animation"; "physx"]).

Definition registered_type (w : World) (type : string) : bool :=
  match _componentTypeIndices (_WL w) !! type with
  | Some i => bool_decide (is_Some (_componentTypes (_WL w) !! i))
  | None => false
  end.

(** Every reference held by the object cache is an instance of the store
    (in JavaScript a reference cannot dangle). *)
Definition ObjectCache_wf (w : World) : Prop :=
  forall h o, ObjectCache (wrappers w) !! h = Some o ->
              is_Some (objects (wrappers w) !! o).

(** A wrapped handle: the cache maps [h] to [o] and
    the instance at [o] holds [h]. *)
Definition wraps (h : Z) (o : nat) (w : World) : Prop :=
  ObjectCache (wrappers w) !! h = Some o
  /\ objects (wrappers w) !! o = Some (mkObject (HNum h)).

(** A wrapped component: the cache of manager [m] maps [c] to [r]. *)
Definition wraps_component (m c : Z) (r : nat) (w : World) : Prop :=
  exists inner, ComponentCache (wrappers w) !! m = Some inner
                /\ inner !! c = Some r.

End Wrap.

(** ** [class Component] *)

Module Component.
Section Methods.

Context {number Engine : Type} `{NativeRuntime number Engine}.

Local Abbreviation World := (World number Engine).

Local Open Scope js_scope.


(** [get active()] on the instance at reference [this]. *)
Definition active (this : nat) : M World bool :=
  self <- gets (fun w => components (wrappers w) !! this);;
  match self with
  | None => throw (TypeError "this is not a Component")
  | Some c =>
      r <- call (_wl_component_isActive (_manager c) (_id c));;
      ret (negb (r =? 0))
  end.

(** [destroy()] on the instance at reference [this]. *)
Definition destroy (this : nat) : M World unit :=
  self <- gets (fun w => components (wrappers w) !! this);;
  match self with
  | None => throw (TypeError "this is not a Component")
  | Some c =>
      _ <- call (_wl_component_remove (_manager c) (_id c));;
      (* @todo: shouldn't be set to undefined. *)
      write_manager_id this HUndefined (_id c);;;
      write_manager_id this HUndefined HUndefined
  end.

(** [equals(otherComponent)] *)
Definition equals (this : Component) (otherComponent : Nullable Component)
  : bool :=
  match otherComponent with
  | null | undefined => false
  | ref other =>
      loose_eq (_manager this) (_manager other)
      && loose_eq (_id this) (_id other)
  end.

End Methods.
End Component.

(** ** [class $Object] *)

Module Object.
Section Methods.

Context {number Engine : Type} `{NativeRuntime number Engine}.

Local Abbreviation World := (World number Engine).

Local Open Scope js_scope.


(** [destroy()] on the instance at reference [this]. *)
Definition destroy (this : nat) : M World unit :=
  self <- gets (fun w => objects (wrappers w) !! this);;
  match self with
  | None => throw (TypeError "this is not an Object")
  | Some o =>
      _ <- call (_wl_scene_remove_object (objectId o));;
      (* @todo: Shouldn't be `null` otherwise the API is unexpected *)
      write_objectId this HNull
  end.

(** [equals(otherObject)] *)
Definition equals (this : Object) (otherObject : Nullable Object) : bool :=
  match otherObject with
  | null | undefined => false
  | ref other => loose_eq (objectId this) (objectId other)
  end.

End Methods.
End Object.

(** ** Reading and writing typed array elements as JavaScript values *)

Section Elements.

Context {number : Type} `{JSNumber number}.

Definition decode (k : ElementType) (bits : Z) : number :=
  match k with
  | Float32 => f32_load bits
  | Int32 => of_Z (JS.ToInt32 bits)
  | Uint8 | Uint16 | Uint32 => of_Z bits
  end.

Definition encode (k : ElementType) (x : number) : Z :=
  match k with
  | Float32 => f32_store x
  | _ => to_bits x
  end.

(** [a[i]] as a value: a number, or [undefined] out of range. *)
Definition read (h : Heap) (a : TypedArray) (i : Z) : Value number :=
  match element h a i with
  | Some bits => VNumber (decode (elementType a) bits)
  | None => VUndefined
  end.

(** ToNumber of an element that was read: [undefined] becomes NaN. *)
Definition read_number (h : Heap) (a : TypedArray) (i : Z) : number :=
  match element h a i with
  | Some bits => decode (elementType a) bits
  | None => NaN
  end.

(** [a[i] = x] *)
Definition write (h : Heap) (a : TypedArray) (i : Z) (x : number) : Heap :=
  set_element h a i (encode (elementType a) x).

Fixpoint write_all (h : Heap) (a : TypedArray) (i : Z) (xs : list number)
  : Heap :=
  match xs with
  | [] => h
  | x :: xs' => write_all (write h a i x) a (i + 1) xs'
  end.

(** ToString, for the values that appear in error messages. *)
Definition ToString (h : Heap) (v : Value number) : string :=
  match v with
  | VUndefined => "undefined"
  | VNull => "null"
  | VBool true => "true"
  | VBool false => "false"
  | VNumber x => number_to_string x
  | VArray xs => String.concat "," (map number_to_string xs)
  | VTypedArray a =>
      String.concat ","
        (map (fun i => number_to_string (read_number h a i)) (seqZ 0 (len a)))
  | VTexture _ _ => "[object Object]"
  end.

End Elements.

(** ** [class MeshAttributeAccessor] *)

(** [enum MeshAttribute] *)
Module MeshAttribute.
Definition Position : Z := 0.
Definition Tangent : Z := 1.
Definition Normal : Z := 2.
Definition TextureCoordinate : Z := 3.
Definition Color : Z := 4.
Definition JointId : Z := 5.
Definition JointWeight : Z := 6.
Definition SecondaryJointId : Z := 7.
Definition SecondaryJointWeight : Z := 8.
End MeshAttribute.

(** A [NumberArray] argument: an array that owns its elements (a plain
    array, or a typed array on another buffer), or a view on the heap
    ([v.buffer == HEAPU8.buffer]). *)
Inductive NumberArray (number : Type) :=
| OwnArray (xs : list number)
| HeapView (a : TypedArray).
Arguments OwnArray {number} xs.
Arguments HeapView {number} a.

Module MeshAttributeAccessor.

(** [_tempBufferGetter] is fixed by the constructor together with
    [_bufferType] and is read off that field here. *)
Record t := mk {
  _attribute : Z;
  _offset : Z;
  _stride : Z;
  _formatSize : Z;
  _componentCount : Z;
  length : Z;
  _bufferType : ElementType
}.

Section Methods.

Context {number Engine : Type} `{JSNumber number} `{NativeRuntime number Engine}.

Local Abbreviation World := (World number Engine).

Local Open Scope js_scope.

(** [constructor(type = MeshAttribute.Position)] *)
Definition constructor (type : Z) : Exception + t :=
  if bool_decide (type ∈ [MeshAttribute.Position; MeshAttribute.Normal;
                          MeshAttribute.TextureCoordinate; MeshAttribute.Tangent;
                          MeshAttribute.Color; MeshAttribute.JointWeight;
                          MeshAttribute.SecondaryJointWeight])
  then inr (mk (-1) 0 0 0 0 0 Float32)
  else if bool_decide (type ∈ [MeshAttribute.JointId;
                               MeshAttribute.SecondaryJointId])
  then inr (mk (-1) 0 0 0 0 0 Uint16)
  else inl (Error ("Invalid attribute accessor type: " +:+ pretty type)).

Definition _tempBufferGetter (this : t) (count : Z) : M World TypedArray :=
  match _bufferType this with
  | Uint16 => getTempBufferU16 count
  | _ => getTempBufferF32 count
  end.

Definition array_length (v : NumberArray number) : Z :=
  match v with
  | OwnArray xs => Z.of_nat (Datatypes.length xs)
  | HeapView a => len a
  end.

(** The message of the length check, shared by [get] and [set]. *)
Definition not_a_multiple (n componentCount : Z) : string :=
  "out.length, " +:+ pretty n
  +:+ " is not a multiple of the attribute vector components, "
  +:+ pretty componentCount.

(** [createArray(count = 1)]: a zero-filled array owning its elements. *)
Definition createArray (this : t) (count : Z) : M World (list (Value number)) :=
  let count := if length this <? count then length this else count in
  let n := count * _componentCount this in
  if n <? 0 then throw (RangeError "Invalid typed array length")
  else ret (replicate (Z.to_nat n) (VNumber (of_Z 0))).

(** [get(index, out)]: the elements of [out] after the call. *)
Definition get (this : t) (index : Z) (out : list (Value number))
  : M World (list (Value number)) :=
  let n := Z.of_nat (Datatypes.length out) in
  if JS.neq_zero (JS.rem n (_componentCount this))
  then throw (Error (not_a_multiple n (_componentCount this)))
  else
    dest <- _tempBufferGetter this n;;
    let bytesPerElt := BYTES_PER_ELEMENT (_bufferType this) in
    let bytes := bytesPerElt * n in
    let destFormatSize := _componentCount this * bytesPerElt in
    _ <- call (_wl_mesh_get_attribute_values
                 (_attribute this)
                 (_formatSize this)
                 (_offset this + index * _stride this)
                 (_stride this)
                 destFormatSize
                 (byteOffset dest)
                 bytes);;
    h <- gets (fun w => HEAP (native w));;
    ret (map (fun i => read h dest i) (seqZ 0 n)).

(** [get(index)] with [out] defaulted to [this.createArray()]. *)
Definition get_default (this : t) (index : Z) : M World (list (Value number)) :=
  out <- createArray this 1;;
  get this index out.

(** [dest.set(v)]: a RangeError when [v] is longer than [dest]. *)
Definition TypedArray_set (dest : TypedArray) (xs : list number)
  : M World unit :=
  if len dest <? Z.of_nat (Datatypes.length xs)
  then throw (RangeError "offset is out of bounds")
  else modify (fun w => set_HEAP (write_all (HEAP (native w)) dest 0 xs) w).

(** [set(i, v)] *)
Definition set (this : t) (i : Z) (v : NumberArray number) : M World t :=
  let n := array_length v in
  if JS.neq_zero (JS.rem n (_componentCount this))
  then throw (Error (not_a_multiple n (_componentCount this)))
  else
    let bytesPerElt := BYTES_PER_ELEMENT (_bufferType this) in
    let bytes := bytesPerElt * n in
    let srcFormatSize := _componentCount this * bytesPerElt in
    (* Unless we are already working with data from WASM heap, we
       need to copy into temporary memory. *)
    src <- match v with
           | HeapView a => ret (byteOffset a)
           | OwnArray xs =>
               dest <- _tempBufferGetter this n;;
               TypedArray_set dest xs;;;
               ret (byteOffset dest)
           end;;
    _ <- call (_wl_mesh_set_attribute_values
                 (_attribute this)
                 srcFormatSize
                 src
                 bytes
                 (_formatSize this)
                 (_offset this + i * _stride this)
                 (_stride this));;
    ret this.

End Methods.
End MeshAttributeAccessor.

(** ** [class Material]: the Proxy handlers installed by the constructor,
    and the members of the class they reach *)

Module Material.

(** What a read through the proxy yields: a value of the kinds above, the
    string of a shader name, or a member of the prototype chain (a method,
    a constructor or a prototype object) named by its path. *)
Inductive Result (number : Type) :=
| RValue (v : Value number)
| RString (s : string)
| RMember (path : string).

Arguments RValue {number} v.
Arguments RString {number} s.
Arguments RMember {number} path.

(** The proxy's target, the instance. [_index] and [_definition] are the
    fields the constructor assigns; [expando] holds the other own
    properties, each created by an assignment; [Prototype] is [None]
    while the instance has the prototype it was constructed with,
    [Material.prototype], and [Some v] once [v] was assigned to
    [__proto__]. *)
Record Target (number : Type) := mkTarget {
  _index : Value number;
  _definition : Value number;
  expando : gmap string (Value number);
  Prototype : option (Value number)
}.

Arguments mkTarget {number}.
Arguments _index {number}.
Arguments _definition {number}.
Arguments expando {number}.
Arguments Prototype {number}.

(** What the handlers use and this module does not define: emscripten's
    [UTF8ToString], and property access continuing at an object that was
    installed as the instance's prototype, with the instance as
    receiver. *)
Class Environment (number Engine : Type) := {
  UTF8ToString : Heap -> Z -> string;
  foreign_get :
    Value number -> string -> Target number
    -> M (World number Engine) (Result number);
  foreign_set :
    Value number -> string -> Value number -> Target number
    -> M (World number Engine) (Target number)
}.

Section Proxy.

Context {number Engine : Type} `{JSNumber number} `{NativeRuntime number Engine}
  `{Environment number Engine}.

Local Abbreviation World := (World number Engine).
Local Abbreviation Target := (Target number).
Local Abbreviation Result := (Result number).

Local Open Scope js_scope.

(** The own property [prop] of the instance, if it has one. *)
Definition own_property (target : Target) (prop : string)
  : option (Value number) :=
  if String.eqb prop "_index" then Some (_index target)
  else if String.eqb prop "_definition" then Some (_definition target)
  else expando target !! prop.

(** [target._index], [target._definition]: reads of own fields. *)
Definition property (target : Target) (prop : string) : Value number :=
  default VUndefined (own_property target prop).

(** The instance after its own property [prop] was written or created. *)
Definition define_own (prop : string) (value : Value number) (target : Target)
  : Target :=
  if String.eqb prop "_index"
  then mkTarget value (_definition target) (expando target) (Prototype target)
  else if String.eqb prop "_definition"
  then mkTarget (_index target) value (expando target) (Prototype target)
  else mkTarget (_index target) (_definition target)
         (<[prop := value]> (expando target)) (Prototype target).

(** [get shader()] *)
Definition shader (this : Target) : M World Result :=
  ptr <- call (_wl_material_get_shader (property this "_index"));;
  h <- gets (fun w => HEAP (native w));;
  ret (RString (UTF8ToString h ptr)).

(** The methods of [Object.prototype]. *)
Definition Object_prototype_methods : list string :=
  ["hasOwnProperty"; "isPrototypeOf"; "propertyIsEnumerable";
   "toLocaleString"; "toString"; "valueOf";
   "__defineGetter__"; "__defineSetter__";
   "__lookupGetter__"; "__lookupSetter__"].

(** The names an instance inherits on the prototype chain it is
    constructed with. *)
Definition inherited_names : list string :=
  ["constructor"; "shader"; "clone"; "__proto__"] ++ Object_prototype_methods.

(** [target[prop]]: an own property, or else what the prototype chain
    gives. On the chain the instance is constructed with,
    [Material.prototype] has [constructor], the accessor [shader] and the
    method [clone], and [Object.prototype] adds the accessor [__proto__]
    and its methods. *)
Definition target_get (target : Target) (prop : string) : M World Result :=
  match own_property target prop with
  | Some v => ret (RValue v)
  | None =>
      match Prototype target with
      | None =>
          if String.eqb prop "constructor" then ret (RMember "Material")
          else if String.eqb prop "shader" then shader target
          else if String.eqb prop "clone"
          then ret (RMember "Material.prototype.clone")
          else if String.eqb prop "__proto__"
          then ret (RMember "Material.prototype")
          else if bool_decide (prop ∈ Object_prototype_methods)
          then ret (RMember ("Object.prototype." +:+ prop))
          else ret (RValue VUndefined)
      | Some VNull => ret (RValue VUndefined)
      | Some proto => foreign_get proto prop target
      end
  end.

(** The setter of [Object.prototype.__proto__]: replaces the prototype
    when the value is an object or [null], and does nothing otherwise. *)
Definition set___proto__ (value : Value number) (target : Target) : Target :=
  match value with
  | VNull | VArray _ | VTypedArray _ | VTexture _ _ =>
      mkTarget (_index target) (_definition target) (expando target)
        (Some value)
  | VUndefined | VBool _ | VNumber _ => target
  end.

(** [target[prop] = value], in strict code: an own property is written;
    an inherited accessor has its setter called, and it is a TypeError
    when it has none; otherwise an own property is created. *)
Definition target_set (target : Target) (prop : string) (value : Value number)
  : M World Target :=
  match own_property target prop with
  | Some _ => ret (define_own prop value target)
  | None =>
      match Prototype target with
      | None =>
          if String.eqb prop "shader"
          then throw (TypeError "Cannot set property shader of #<Material> which has only a getter")
          else if String.eqb prop "__proto__"
          then ret (set___proto__ value target)
          else ret (define_own prop value target)
      | Some VNull => ret (define_own prop value target)
      | Some proto => foreign_set proto prop value target
      end
  end.

(** [new Texture(param)] with a number: wraps the id and records the
    instance in [textures]. *)
Definition new_Texture (param : Value number) : M World (Value number) :=
  let t := VTexture param VUndefined in
  modify (fun w => set_textures ((param, t) :: textures w) w);;;
  ret t.

(** [_WL._materialDefinitions[target._definition]]; calling [get] on
    [undefined] is a TypeError. *)
Definition definition_of (target : Target)
  : M World (gmap string MaterialParam) :=
  d <- gets (fun w => _materialDefinitions (_WL w) (property target "_definition"));;
  match d with
  | Some definition => ret definition
  | None => throw (TypeError "Cannot read properties of undefined (reading 'get')")
  end.

Definition temp_read (view : TempMemory -> TypedArray) (i : Z)
  : M World (Value number) :=
  gets (fun w => read (HEAP (native w)) (view (temp w)) i).

(** [_tempMemFloat[i] = x] *)
Definition temp_write_float (i : Z) (x : number) : M World unit :=
  modify (fun w =>
    set_HEAP (write (HEAP (native w)) (_tempMemFloat (temp w)) i x) w).

(** The value of a parameter the runtime reported as set: the [switch]
    of the [get] trap. *)
Definition param_value (target : Target) (param : MaterialParam) (p : Z)
  : M World (Value number) :=
  let type := param_type param in
  let componentCount := param_componentCount param in
  if type =? MaterialParamType.UnsignedInt then
    if componentCount =? 1 then temp_read _tempMemUint32 0
    else a <- new_view Uint32 p componentCount;; ret (VTypedArray a)
  else if type =? MaterialParamType.Int then
    if componentCount =? 1 then temp_read _tempMemInt 0
    else a <- new_view Int32 p componentCount;; ret (VTypedArray a)
  else if type =? MaterialParamType.Float then
    if componentCount =? 1 then temp_read _tempMemFloat 0
    else a <- new_view Float32 p componentCount;; ret (VTypedArray a)
  else if type =? MaterialParamType.Sampler then
    x <- temp_read _tempMemInt 0;;
    new_Texture x
  else
    h <- gets (fun w => HEAP (native w));;
    throw (Error ("Invalid type [object Object] on parameter "
                  +:+ pretty (param_index param)
                  +:+ " for material "
                  +:+ ToString h (property target "_index"))).

(** The [get] trap. *)
Definition get (target : Target) (prop : string) : M World Result :=
  definition <- definition_of target;;
  match definition !! prop with
  | None => target_get target prop
  | Some param =>
      p <- gets (fun w => _tempMem (temp w));;
      r <- call (_wl_material_get_param_value
                   (property target "_index") (param_index param) p);;
      if r =? 0 then ret (RValue VUndefined)
      else
        v <- param_value target param p;;
        ret (RValue v)
  end.

(** The Float case of the [set] trap: stages [value] into the float view
    and yields the [count] handed to the runtime. *)
Definition stage_floats (value : Value number) : M World (Value number) :=
  match value with
  | VNumber x =>
      temp_write_float 0 x;;;
      ret (VNumber (of_Z 1))
  | VArray xs =>
      modify (fun w =>
        set_HEAP (write_all (HEAP (native w)) (_tempMemFloat (temp w)) 0 xs) w);;;
      ret (VNumber (of_Z (Z.of_nat (length xs))))
  | VTypedArray a =>
      for_range 0 (Z.to_nat (len a)) (fun i =>
        x <- gets (fun w => read_number (HEAP (native w)) a i);;
        temp_write_float i x);;;
      ret (VNumber (of_Z (len a)))
  | VBool _ | VTexture _ _ =>
      (* [value.length] is undefined: the loop does not run *)
      ret VUndefined
  | VUndefined =>
      throw (TypeError "Cannot read properties of undefined (reading 'length')")
  | VNull =>
      throw (TypeError "Cannot read properties of null (reading 'length')")
  end.

(** The [set] trap: the value it returns and the target afterwards. *)
Definition set (target : Target) (prop : string) (value : Value number)
  : M World (bool * Target) :=
  definition <- definition_of target;;
  match definition !! prop with
  | None =>
      target' <- target_set target prop value;;
      ret (true, target')
  | Some param =>
      let type := param_type param in
      if (type =? MaterialParamType.UnsignedInt)
         || (type =? MaterialParamType.Int)
         || (type =? MaterialParamType.Sampler)
      then
        let v := match value with
                 | VTexture id _ => id    (* value instanceof Texture ? value.id *)
                 | _ => value
                 end in
        _ <- call (_wl_material_set_param_value_uint
                     (property target "_index") (param_index param) v);;
        ret (true, target)
      else if type =? MaterialParamType.Float then
        count <- stage_floats value;;
        p <- gets (fun w => _tempMem (temp w));;
        _ <- call (_wl_material_set_param_value_float
                     (property target "_index") (param_index param) p count);;
        ret (true, target)
      else if type =? MaterialParamType.Font then
        throw (Error "Setting font properties is currently unsupported.")
      else ret (true, target)
  end.

End Proxy.
End Material.

(** ** [class RayHit] *)

Module RayHit.

Record t := mk {
  _ptr : Z
}.

Definition MISALIGNED_MSG : string := "Misaligned pointer: please report a bug".

(** [constructor(ptr)] *)
Definition constructor (ptr : Z) : Exception + t :=
  if JS.band ptr 3 =? 0 then inr (mk ptr) else inl (Error MISALIGNED_MSG).

(** [HEAPU32[this._ptr / 4 + 30]]: the index is an integer only for an
    aligned pointer; any other property of the array is [undefined]. *)
Definition counter (h : Heap) (this : t) : option Z :=
  if _ptr this mod 4 =? 0
  then element h (HEAPU32 h) (_ptr this / 4 + 30)
  else None.

(** [get hitCount()]; [None] is NaN. *)
Definition hitCount (h : Heap) (this : t) : option Z :=
  JS.Math_min (counter h this) 4.

(** The iterations of [for (let i = 0; i < this.hitCount; ++i)]: the heap
    is not written in the loop, so the bound is the same at every test. *)
Definition iterations (n : option Z) : nat :=
  match n with
  | Some m => Z.to_nat m
  | None => O
  end.

(** [l.push(new Float32Array(HEAPF32.buffer, p + 12 * i, 3))] for [n]
    iterations starting at [i]. *)
Fixpoint push_views (h : Heap) (p i : Z) (n : nat) (l : list TypedArray)
  : Exception + list TypedArray :=
  match n with
  | O => inr l
  | S n' =>
      match new_TypedArray h Float32 (p + 12 * i) 3 with
      | Some a => push_views h p (i + 1) n' (l ++ [a])
      | None => inl (RangeError "Invalid typed array length or offset")
      end
  end.

(** [get locations()] *)
Definition locations (h : Heap) (this : t) : Exception + list TypedArray :=
  let p := _ptr this in
  push_views h p 0 (iterations (hitCount h this)) [].

(** [get normals()] *)
Definition normals (h : Heap) (this : t) : Exception + list TypedArray :=
  let p := _ptr this + 48 in
  push_views h p 0 (iterations (hitCount h this)) [].

End RayHit.

(** ** A concrete instance, for evaluating the definitions

    Integer-valued payloads, for which an element of a float view holds
    the low 32 bits of the integer written (a stand-in for the float32
    encoding, which the theorems keep abstract), and a runtime that
    answers 0 to every call and leaves the heap alone. *)

#[export] Instance Z_number : JSNumber Z := {
  of_Z z := z;
  to_bits z := z mod 2 ^ 32;
  f32_load z := z;
  f32_store z := z mod 2 ^ 32;
  NaN := 0;
  number_to_string z := pretty z
}.

#[export] Instance idle_runtime : NativeRuntime Z unit := {
  native_call _ e h := (0, e, h)
}.

(** The bytes from the start of [bs] up to the first NUL, as a string. *)
Fixpoint c_string (bs : list byte) : string :=
  match bs with
  | [] => ""
  | b :: bs' =>
      if Byte.eqb b Byte.x00 then ""
      else String (Ascii.ascii_of_byte b) (c_string bs')
  end.

(** An environment in which strings are read byte by byte and an object
    installed as a prototype contributes no property. *)
#[export] Instance plain_environment : Material.Environment Z unit := {
  Material.UTF8ToString h ptr :=
    if ptr =? 0 then "" else c_string (drop (Z.to_nat ptr) h);
  Material.foreign_get _ _ _ := ret (Material.RValue VUndefined);
  Material.foreign_set _ prop value target :=
    ret (Material.define_own prop value target)
}.

Definition no_view : TypedArray := mkTypedArray Uint8 0 0.

(** The state right after the module is loaded, with an empty heap. *)
Definition initial_world : World Z unit :=
  mkWorld
    (mkNative tt [] [])
    (mkTempMemory 0 0 no_view no_view no_view no_view no_view)
    (mkWrappers [] [] ∅ ∅)
    (mkWLTables ∅ [] (fun _ => None))
    [] [].

(** The world after wrapping object 7 and component 0 of manager 3. *)
Definition wrapped_world : World Z unit :=
  world_of (_wrapComponent "mesh" 3 0 (world_of (_wrapObject 7 initial_world))).

(** An accessor for an attribute of three floats per vertex, over four
    vertices. *)
Definition position_accessor : MeshAttributeAccessor.t :=
  MeshAttributeAccessor.mk 0 0 12 12 3 4 Float32.

(** The state [init()] leaves on a heap of 4096 bytes when the allocator
    places the temporary memory at address 16: a capacity of 1024. *)
Definition world_1kb : World Z unit :=
  set_temp (mkTempMemory 16 1024
              (mkTypedArray Float32 16 256) (mkTypedArray Int32 16 256)
              (mkTypedArray Uint32 16 256) (mkTypedArray Uint16 16 512)
              (mkTypedArray Uint8 16 1024))
    (set_HEAP (replicate 4096 Byte.x00) initial_world).

(** A material definition with one parameter of each kind, and the world
    in which it is definition 0. *)
Definition phong_definition : gmap string MaterialParam :=
  {[ "diffuseTexture" := mkMaterialParam 0 MaterialParamType.Sampler 1;
     "diffuseColor" := mkMaterialParam 1 MaterialParamType.Float 4;
     "shininess" := mkMaterialParam 2 MaterialParamType.UnsignedInt 1;
     "font" := mkMaterialParam 3 MaterialParamType.Font 1 ]}.

Definition material_world : World Z unit :=
  mkWorld (native world_1kb) (temp world_1kb) (wrappers world_1kb)
    (mkWLTables ∅ []
       (fun d => match d with
                 | VNumber 0 => Some phong_definition
                 | _ => None
                 end))
    [] [].

(** A material with index 5 of that definition, as constructed. *)
Definition phong_material : Material.Target Z :=
  Material.mkTarget (VNumber 5) (VNumber 0) ∅ None.

(** A heap of 140 bytes holding a ray hit block at address 16 whose hit
    counter (at offset 120 of the block) is 7. *)
Definition ray_heap : Heap :=
  replicate 136 Byte.x00 ++ [Byte.x07; Byte.x00; Byte.x00; Byte.x00].

(** A runtime that answers 1 to every call (every parameter is reported
    as set) and leaves the heap alone. *)
Definition reporting_runtime : NativeRuntime Z unit :=
  {| native_call _ e h := (1, e, h) |}.

(** ** Invariants and measures of the module state *)

(** The five views as [updateTempMemory] builds them from [_tempMem] and
    [_tempMemSize], for a capacity the shifts do not wrap. *)
Definition temp_views_consistent (t : TempMemory) : Prop :=
  0 <= _tempMemSize t < 2 ^ 31
  /\ _tempMemFloat t
     = mkTypedArray Float32 (_tempMem t) (JS.shr (_tempMemSize t) 2)
  /\ _tempMemInt t
     = mkTypedArray Int32 (_tempMem t) (JS.shr (_tempMemSize t) 2)
  /\ _tempMemUint32 t
     = mkTypedArray Uint32 (_tempMem t) (JS.shr (_tempMemSize t) 2)
  /\ _tempMemUint16 t
     = mkTypedArray Uint16 (_tempMem t) (JS.shr (_tempMemSize t) 1)
  /\ _tempMemUint8 t = mkTypedArray Uint8 (_tempMem t) (_tempMemSize t).

(** A view that lies inside the heap. *)
Definition view_in_heap (h : Heap) (a : TypedArray) : Prop :=
  0 <= byteOffset a /\ 0 <= len a
  /\ byteOffset a + len a * BYTES_PER_ELEMENT (elementType a) <= byteLength h.

(** The number of [_malloc] calls in a log. *)
Definition is_malloc {number : Type} (c : NativeCall number) : bool :=
  match c with
  | _malloc _ => true
  | _ => false
  end.

Definition malloc_count {number : Type} (l : list (NativeCall number)) : nat :=
  length (List.filter is_malloc l).

Section CacheInvariants.

Context {number Engine : Type}.

Local Abbreviation World := (World number Engine).

(** No two handles share an instance. *)
Definition ObjectCache_inj (w : World) : Prop :=
  forall h h' o,
    ObjectCache (wrappers w) !! h = Some o ->
    ObjectCache (wrappers w) !! h' = Some o -> h = h'.

(** Every reference held by the component cache is an instance of the
    store. *)
Definition ComponentCache_wf (w : World) : Prop :=
  forall m inner c r,
    ComponentCache (wrappers w) !! m = Some inner -> inner !! c = Some r ->
    is_Some (components (wrappers w) !! r).

(** The class [_wrapComponent] instantiates for a type name, as its chain
    of comparisons and the registry lookup decide; [None] when the lookup
    yields no constructor. *)
Definition class_for (w : World) (type : string) : option ComponentClass :=
  if String.eqb type "collision" then Some CollisionComponent
  else if String.eqb type "text" then Some TextComponent
  else if String.eqb type "view" then Some ViewComponent
  else if String.eqb type "mesh" then Some MeshComponent
  else if String.eqb type "input" then Some InputComponent
  else if String.eqb type "light" then Some LightComponent
  else if String.eqb type "animation" then Some AnimationComponent
  else if String.eqb type "physx" then Some PhysXComponent
  else
    i ← _componentTypeIndices (_WL w) !! type;
    TypeName ← _componentTypes (_WL w) !! i;
    Some (CustomComponent TypeName).

(** The world after [_wrapComponent] constructed and cached an instance of
    class [C] for [(m, c)]. *)
Definition with_component (C : ComponentClass) (m c : Z) (w : World) : World :=
  set_wrappers
    (mkWrappers (objects (wrappers w))
       (components (wrappers w)
          ++ [mkComponent C (HNum m) (HNum c) None None])
       (ObjectCache (wrappers w))
       (<[m := <[c := length (components (wrappers w))]>
                 (default ∅ (ComponentCache (wrappers w) !! m))]>
          (ComponentCache (wrappers w)))) w.

End CacheInvariants.

(** [get distances()] of [RayHit]: a view of [hitCount] floats at offset 96
    of the block; a NaN length converts to 0. *)
Definition RayHit_distances (h : Heap) (this : RayHit.t)
  : Exception + TypedArray :=
  let p := RayHit._ptr this + 48 * 2 in
  match new_TypedArray h Float32 p (default 0 (RayHit.hitCount h this)) with
  | Some a => inr a
  | None => inl (RangeError "Invalid typed array length or offset")
  end.

(** * Properties *)

(** ** Temporary memory *)

Lemma Math_ceil_div_1024 (s : Z) :
  JS.Math_ceil (JS.div s 1024) = - ((- s) / 1024).
Proof.
  unfold JS.Math_ceil, JS.div, Qceiling, Qfloor. simpl.
  rewrite Z.mul_1_r. reflexivity.
Qed.

Lemma grow_in_1kb_increments (s : Z) :
  let c := JS.Math_ceil (JS.div s 1024) * 1024 in
  s <= c < s + 1024 /\ c mod 1024 = 0.
Proof.
  cbv zeta. rewrite Math_ceil_div_1024. split.
  - pose proof (Z.div_mod (- s) 1024 ltac:(lia)).
    pose proof (Z.mod_pos_bound (- s) 1024 ltac:(lia)). lia.
  - apply Z.mod_mul. lia.
Qed.

Section TempMemFacts.

Context {number Engine : Type} `{NativeRuntime number Engine}.

Local Abbreviation World := (World number Engine).

Lemma updateTempMemory_size (w : World) :
  _tempMemSize (temp (world_of (updateTempMemory w))) = _tempMemSize (temp w).
Proof.
  unfold updateTempMemory, bind, gets, update_temp, modify, new_view.
  repeat (destruct (new_TypedArray _ _ _ _); simpl; try reflexivity).
Qed.

Lemma allocateTempMemory_size (n : Z) (w : World) :
  _tempMemSize (temp (world_of (allocateTempMemory n w))) = n.
Proof.
  unfold allocateTempMemory, bind, gets, update_temp, modify, console_log, call, ret.
  simpl.
  destruct (_tempMem (temp w) =? 0); simpl.
  - destruct (native_call _ _ _) as [[r e] h]. simpl.
    match goal with |- context [updateTempMemory ?x] =>
      pose proof (updateTempMemory_size x) as E; destruct (updateTempMemory x) end.
    all: simpl in *; exact E.
  - destruct (native_call _ _ _) as [[r e] h]. simpl.
    destruct (native_call _ _ _) as [[r' e'] h']. simpl.
    match goal with |- context [updateTempMemory ?x] =>
      pose proof (updateTempMemory_size x) as E; destruct (updateTempMemory x) end.
    all: simpl in *; exact E.
Qed.

Lemma updateTempMemory_native (w : World) :
  native (world_of (updateTempMemory w)) = native w.
Proof.
  unfold updateTempMemory, bind, gets, update_temp, modify, new_view.
  repeat (destruct (new_TypedArray _ _ _ _); simpl; try reflexivity).
Qed.

(** The calls [allocateTempMemory] makes: the old block, if any, is
    freed, then a block of the new size is requested. *)
Lemma allocateTempMemory_calls (n : Z) (w : World) :
  calls (native (world_of (allocateTempMemory n w)))
  = calls (native w)
    ++ (if _tempMem (temp w) =? 0 then [] else [_free (_tempMem (temp w))])
    ++ [_malloc n].
Proof.
  unfold allocateTempMemory, bind, gets, update_temp, modify, console_log,
    call, ret. simpl.
  destruct (_tempMem (temp w) =? 0); simpl.
  - destruct (native_call _ _ _) as [[r e] h]. simpl.
    match goal with |- context [updateTempMemory ?x] =>
      pose proof (updateTempMemory_native x) as E;
      destruct (updateTempMemory x) end; simpl in *; rewrite E; reflexivity.
  - destruct (native_call _ _ _) as [[r e] h]. simpl.
    destruct (native_call _ _ _) as [[r' e'] h']. simpl.
    match goal with |- context [updateTempMemory ?x] =>
      pose proof (updateTempMemory_native x) as E;
      destruct (updateTempMemory x) end; simpl in *; rewrite E; simpl;
      rewrite <- app_assoc; reflexivity.
Qed.

End TempMemFacts.

Section TempMemTheorems.

Context {number Engine : Type} `{NativeRuntime number Engine}.

Local Abbreviation World := (World number Engine).

Lemma requireTempMem_enough (s : Z) (w : World) :
  s <= _tempMemSize (temp w) -> requireTempMem s w = Ok tt w.
Proof.
  intros Hs. unfold requireTempMem, bind, gets, ret.
  destruct (Z.leb_spec s (_tempMemSize (temp w))); [reflexivity | lia].
Qed.

Lemma requireTempMem_grow (s : Z) (w : World) :
  _tempMemSize (temp w) < s ->
  _tempMemSize (temp (world_of (requireTempMem s w)))
  = JS.Math_ceil (JS.div s 1024) * 1024.
Proof.
  intros Hs. unfold requireTempMem, bind, gets.
  destruct (Z.leb_spec s (_tempMemSize (temp w))); [lia |].
  apply allocateTempMemory_size.
Qed.

Lemma requireTempMem_grow_calls (s : Z) (w : World) :
  _tempMemSize (temp w) < s ->
  calls (native (world_of (requireTempMem s w)))
  = calls (native w)
    ++ (if _tempMem (temp w) =? 0 then [] else [_free (_tempMem (temp w))])
    ++ [_malloc (JS.Math_ceil (JS.div s 1024) * 1024)].
Proof.
  intros Hs. unfold requireTempMem, bind, gets.
  destruct (Z.leb_spec s (_tempMemSize (temp w))); [lia |].
  apply allocateTempMemory_calls.
Qed.

Lemma requireTempMem_mono (s : Z) (w : World) :
  _tempMemSize (temp w) <= _tempMemSize (temp (world_of (requireTempMem s w))).
Proof.
  destruct (Z.le_gt_cases s (_tempMemSize (temp w))) as [Hs | Hs].
  - rewrite (requireTempMem_enough s w Hs). simpl. lia.
  - rewrite (requireTempMem_grow s w Hs).
    pose proof (grow_in_1kb_increments s) as G. cbv zeta in G. lia.
Qed.

Lemma requireTempMem_all_mono (sizes : list Z) (w : World) :
  _tempMemSize (temp w) <= _tempMemSize (temp (requireTempMem_all sizes w)).
Proof.
  revert w. induction sizes as [| s rest IH]; intros w; simpl.
  - lia.
  - etransitivity; [apply (requireTempMem_mono s) | apply IH].
Qed.

(** C2. [requireTempMem(s)] leaves the world (so the capacity) as it is
    when the capacity is already at least [s]; otherwise the capacity
    becomes [Math.ceil(s / 1024) * 1024], the least multiple of 1024 that
    is at least [s], and a block of exactly that size is requested from
    the allocator (after the old block, if any, is freed). Hence the
    capacity never shrinks, over one call and over any run of calls, and
    asking for 1500 bytes with a capacity of 1024 gives exactly 2048. *)
Theorem requireTempMem_capacity (s : Z) (w : World) :
  let capacity := _tempMemSize (temp w) in
  let capacity' := _tempMemSize (temp (world_of (requireTempMem s w))) in
  (s <= capacity -> requireTempMem s w = Ok tt w /\ capacity' = capacity)
  /\ (capacity < s ->
      capacity' = JS.Math_ceil (JS.div s 1024) * 1024
      /\ s <= capacity' < s + 1024 /\ capacity' mod 1024 = 0
      /\ calls (native (world_of (requireTempMem s w)))
         = calls (native w)
           ++ (if _tempMem (temp w) =? 0 then []
               else [_free (_tempMem (temp w))])
           ++ [_malloc capacity'])
  /\ capacity <= capacity'
  /\ (forall sizes,
        capacity <= _tempMemSize (temp (requireTempMem_all sizes w)))
  /\ (capacity = 1024 -> s = 1500 -> capacity' = 2048).
Proof.
  cbv zeta. split; [| split; [| split; [| split]]].
  - intros Hs. rewrite requireTempMem_enough by assumption. split; reflexivity.
  - intros Hs. rewrite requireTempMem_grow_calls by assumption.
    rewrite requireTempMem_grow by assumption.
    split; [reflexivity |].
    pose proof (grow_in_1kb_increments s) as G. cbv zeta in G.
    split; [apply G |]. split; [apply G | reflexivity].
  - apply requireTempMem_mono.
  - intros sizes. apply requireTempMem_all_mono.
  - intros Hc Hs. subst s. rewrite requireTempMem_grow by lia. reflexivity.
Qed.

End TempMemTheorems.

Lemma requireTempMem_capacity_witness :
  _tempMemSize (temp (world_of (requireTempMem 1500 world_1kb))) = 2048.
Proof.
  apply (requireTempMem_capacity 1500 world_1kb); reflexivity.
Defined.

(** ** Wrapper caches *)

Section WrapFacts.

Context {number Engine : Type} `{NativeRuntime number Engine}.

Local Abbreviation World := (World number Engine).

Lemma set_wrappers_id (w : World) : set_wrappers (wrappers w) w = w.
Proof. destruct w; reflexivity. Qed.

Lemma set_objects_id (c : Wrappers) : set_objects (objects c) c = c.
Proof. destruct c; reflexivity. Qed.

(** A call that finds [h] cached at an instance that already holds [h]
    (or at no instance) changes nothing. *)
Lemma _wrapObject_stable (h : Z) (o : nat) (w : World) :
  ObjectCache (wrappers w) !! h = Some o ->
  <[o := mkObject (HNum h)]> (objects (wrappers w)) = objects (wrappers w) ->
  _wrapObject h w = Ok o w.
Proof.
  intros Hc Ho. unfold _wrapObject, bind, gets, write_objectId,
    update_wrappers, modify, ret. simpl.
  rewrite Hc. simpl. rewrite Ho.
  rewrite set_objects_id, set_wrappers_id. reflexivity.
Qed.

Lemma _wrapObject_twice (h : Z) (w : World) :
  exists o w1,
    _wrapObject h w = Ok o w1
    /\ _wrapObject h w1 = Ok o w1
    /\ ObjectCache (wrappers w1) !! h = Some o.
Proof.
  unfold _wrapObject at 1. unfold bind, gets, write_objectId, new_Object,
    update_wrappers, modify, ret. simpl.
  destruct (ObjectCache (wrappers w) !! h) as [o |] eqn:Hc; simpl.
  - eexists _, _. split; [reflexivity |]. split; [| exact Hc].
    apply _wrapObject_stable; simpl; [exact Hc |].
    apply list_insert_insert_eq.
  - eexists _, _. split; [reflexivity |]. split; [| apply lookup_insert_eq].
    apply _wrapObject_stable; simpl; [apply lookup_insert_eq |].
    apply list_insert_insert_eq.
Qed.

Lemma _wrapObject_wraps (h : Z) (w : World) :
  ObjectCache_wf w ->
  exists o w1, _wrapObject h w = Ok o w1 /\ wraps h o w1 /\ ObjectCache_wf w1.
Proof.
  intros Hwf. unfold _wrapObject, bind, gets, write_objectId, new_Object,
    update_wrappers, modify, ret, wraps. simpl.
  destruct (ObjectCache (wrappers w) !! h) as [o |] eqn:Hc; simpl.
  - destruct (Hwf h o Hc) as [x Hx].
    eexists _, _. split; [reflexivity |]. simpl. split; [split |].
    + exact Hc.
    + apply list_lookup_insert_eq. eapply lookup_lt_Some; eassumption.
    + intros h' o' Hc'. simpl in *.
      destruct (Hwf h' o' Hc') as [y Hy].
      apply lookup_lt_is_Some. rewrite length_insert.
      eapply lookup_lt_Some; eassumption.
  - eexists _, _. split; [reflexivity |]. simpl. split; [split |].
    + apply lookup_insert_eq.
    + apply list_lookup_insert_eq. rewrite length_app. simpl. lia.
    + intros h' o' Hc'. simpl in *.
      apply lookup_lt_is_Some. rewrite length_insert, length_app. simpl.
      destruct (decide (h = h')) as [-> | Hne].
      * rewrite lookup_insert_eq in Hc'. injection Hc' as <-. lia.
      * rewrite lookup_insert_ne in Hc' by assumption.
        destruct (Hwf h' o' Hc') as [y Hy].
        apply lookup_lt_Some in Hy. lia.
Qed.

Lemma _wrapComponent_wrapped (t : string) (m c : Z) (r : nat) (w : World) :
  0 <= c -> wraps_component m c r w -> _wrapComponent t m c w = Ok (Some r) w.
Proof.
  intros Hc (inner & Hm & Hi). unfold _wrapComponent.
  destruct (Z.ltb_spec c 0); [lia |].
  unfold bind, gets, ret. simpl. rewrite Hm. simpl. rewrite Hi. reflexivity.
Qed.

Lemma not_native_type (t : string) :
  String.eqb t "collision" = false -> String.eqb t "text" = false ->
  String.eqb t "view" = false -> String.eqb t "mesh" = false ->
  String.eqb t "input" = false -> String.eqb t "light" = false ->
  String.eqb t "animation" = false -> String.eqb t "physx" = false ->
  native_type t = false.
Proof.
  intros. unfold native_type. apply bool_decide_eq_false. intros Hin.
  repeat (apply elem_of_cons in Hin as [-> | Hin];
          [rewrite String.eqb_refl in *; discriminate |]).
  by apply elem_of_nil in Hin.
Qed.

Ltac wrap_steps :=
  unfold new_Component, write_manager_id, update_wrappers, bind, gets,
    modify, ret, wraps_component; simpl.

Ltac wrap_done :=
  eexists _, _; split; [reflexivity |]; simpl;
  eexists; split; [apply lookup_insert_eq | apply lookup_insert_eq].

Lemma _wrapComponent_wraps (t : string) (m c : Z) (w : World) :
  0 <= c -> native_type t || registered_type w t = true ->
  exists r w1, _wrapComponent t m c w = Ok (Some r) w1
               /\ wraps_component m c r w1.
Proof.
  intros Hc Ht. unfold _wrapComponent.
  destruct (Z.ltb_spec c 0); [lia |].
  unfold bind at 1. unfold gets at 1.
  assert (forall w0 : World, _WL w0 = _WL w ->
    (match ComponentCache (wrappers w0) !! m with
     | Some inner => inner !! c = None
     | None => False
     end) ->
    exists r w1,
      bind
        (if String.eqb t "collision" then
           new_Component CollisionComponent (HNum m) (HNum c)
         else if String.eqb t "text" then
           new_Component TextComponent (HNum m) (HNum c)
         else if String.eqb t "view" then
           new_Component ViewComponent (HNum m) (HNum c)
         else if String.eqb t "mesh" then
           new_Component MeshComponent (HNum m) (HNum c)
         else if String.eqb t "input" then
           new_Component InputComponent (HNum m) (HNum c)
         else if String.eqb t "light" then
           new_Component LightComponent (HNum m) (HNum c)
         else if String.eqb t "animation" then
           new_Component AnimationComponent (HNum m) (HNum c)
         else if String.eqb t "physx" then
           new_Component PhysXComponent (HNum m) (HNum c)
         else new_registered t)
        (fun component =>
           bind (write_manager_id component (HNum m) (HNum c)) (fun _ =>
           bind (update_wrappers (fun x =>
                   set_ComponentCache
                     (<[m := <[c := component]>
                               (default ∅ (ComponentCache x !! m))]>
                        (ComponentCache x)) x)) (fun _ =>
           ret (Some component)))) w0 = Ok (Some r) w1
      /\ wraps_component m c r w1) as Construct.
  { intros w0 HWL _.
    destruct (String.eqb t "collision") eqn:E1; [wrap_steps; wrap_done |].
    destruct (String.eqb t "text") eqn:E2; [wrap_steps; wrap_done |].
    destruct (String.eqb t "view") eqn:E3; [wrap_steps; wrap_done |].
    destruct (String.eqb t "mesh") eqn:E4; [wrap_steps; wrap_done |].
    destruct (String.eqb t "input") eqn:E5; [wrap_steps; wrap_done |].
    destruct (String.eqb t "light") eqn:E6; [wrap_steps; wrap_done |].
    destruct (String.eqb t "animation") eqn:E7; [wrap_steps; wrap_done |].
    destruct (String.eqb t "physx") eqn:E8; [wrap_steps; wrap_done |].
    rewrite (not_native_type t) in Ht by assumption. simpl in Ht.
    unfold registered_type in Ht. unfold new_registered.
    unfold bind at 1. unfold bind at 1. unfold gets at 1. unfold bind at 1.
    unfold gets at 1. cbv beta. rewrite HWL.
    destruct (_componentTypeIndices (_WL w) !! t) as [i |]; [| discriminate].
    apply bool_decide_eq_true in Ht. destruct Ht as [name Hn].
    simpl. rewrite Hn. wrap_steps. wrap_done. }
  destruct (ComponentCache (wrappers w) !! m) as [inner |] eqn:Hm.
  - unfold bind at 1. unfold ret at 1. cbv beta iota.
    destruct (inner !! c) as [r |] eqn:Hi.
    + exists r, w. split; [reflexivity |]. exists inner. split; assumption.
    + apply Construct; [reflexivity | rewrite Hm; assumption].
  - unfold bind at 1. unfold bind at 1. unfold update_wrappers at 1.
    unfold modify at 1. cbv beta iota. unfold ret at 1. cbv beta iota.
    rewrite lookup_empty.
    apply Construct; [reflexivity |]. simpl. rewrite lookup_insert_eq.
    apply lookup_empty.
Qed.

End WrapFacts.

Section WrapTheorems.

Context {number Engine : Type} `{NativeRuntime number Engine}.

Local Abbreviation World := (World number Engine).

(** C1, amended. Wrapping a handle [h] twice returns the same instance:
    [_wrapObject(h)] returns a reference [o], caches it under [h], and the
    repeat call returns [o] again. Every call leaves [h] in the [objectId]
    of the instance it returns, also when it finds the instance cached
    with another value in the field. For every manager [m], id [c >= 0]
    and type name [t] that [_wrapComponent] can construct (one of the
    eight native names, or a name registered with a constructor in
    [_WL]), [_wrapComponent(t, m, c)] returns a component and the repeat
    call returns the same cached instance. *)
Theorem wrap_twice_same_instance (w : World) :
  (forall h,
     exists o w1,
       _wrapObject h w = Ok o w1
       /\ _wrapObject h w1 = Ok o w1
       /\ ObjectCache (wrappers w1) !! h = Some o
       /\ (ObjectCache_wf w ->
           objects (wrappers w1) !! o = Some (mkObject (HNum h))
           /\ ObjectCache_wf w1))
  /\ (forall h o old,
        ObjectCache (wrappers w) !! h = Some o ->
        objects (wrappers w) !! o = Some old ->
        exists w1,
          _wrapObject h w = Ok o w1
          /\ objects (wrappers w1) !! o = Some (mkObject (HNum h)))
  /\ (forall t m c,
        0 <= c -> native_type t || registered_type w t = true ->
        exists r w1,
          _wrapComponent t m c w = Ok (Some r) w1
          /\ _wrapComponent t m c w1 = Ok (Some r) w1).
Proof.
  split; [| split].
  - intros h.
    destruct (_wrapObject_twice h w) as (o & w1 & E & E' & Hc).
    exists o, w1. split; [exact E |]. split; [exact E' |].
    split; [exact Hc |]. intros Hwf.
    destruct (_wrapObject_wraps h w Hwf) as (o' & w1' & F & Hw & Hwf1).
    rewrite E in F. injection F as <- <-.
    split; [apply Hw | exact Hwf1].
  - intros h o old Hc Ho.
    unfold _wrapObject, bind, gets, write_objectId, update_wrappers, modify,
      ret. simpl. rewrite Hc. simpl.
    eexists. split; [reflexivity |]. simpl.
    apply list_lookup_insert_eq. eapply lookup_lt_Some; eassumption.
  - intros t m c Hc Ht.
    destruct (_wrapComponent_wraps t m c w Hc Ht) as (r & w1 & E & Hw).
    exists r, w1. split; [exact E |].
    apply _wrapComponent_wrapped; assumption.
Qed.

End WrapTheorems.

Lemma wrap_twice_same_instance_witness :
  (exists o w1,
     _wrapObject 7 initial_world = Ok o w1
     /\ _wrapObject 7 w1 = Ok o w1
     /\ objects (wrappers w1) !! o = Some (mkObject (HNum 7)))
  /\ (exists r w1,
        _wrapComponent "mesh" 3 0 initial_world = Ok (Some r) w1
        /\ _wrapComponent "mesh" 3 0 w1 = Ok (Some r) w1).
Proof.
  split.
  - destruct (proj1 (wrap_twice_same_instance initial_world) 7)
      as (o & w1 & E & E' & _ & Hf).
    exists o, w1. split; [exact E |]. split; [exact E' |].
    apply Hf. intros h o' Hc. simpl in Hc. rewrite lookup_empty in Hc.
    discriminate.
  - apply (proj2 (proj2 (wrap_twice_same_instance initial_world)) "mesh" 3 0).
    + lia.
    + reflexivity.
Defined.

(** C1 as stated fails for a type name that is neither native nor
    registered: the constructor looked up in [_WL] is [undefined], the
    call throws, no instance is returned or cached, and the repeat call
    throws again. *)
Lemma wrapComponent_unknown_type_throws :
  native_type "my-component" || registered_type initial_world "my-component"
  = false
  /\ exists w1,
       _wrapComponent "my-component" 0 0 initial_world
       = Threw (TypeError "constructor is not a constructor") w1
       /\ _wrapComponent "my-component" 0 0 w1
          = Threw (TypeError "constructor is not a constructor") w1
       /\ components (wrappers w1) = [].
Proof.
  split; [reflexivity |].
  eexists. split; [reflexivity |]. split; reflexivity.
Qed.

(** ** Wrapper lifecycle and equality *)

Section LifecycleTheorems.

Context {number Engine : Type} `{NativeRuntime number Engine}.

Local Abbreviation World := (World number Engine).




End LifecycleTheorems.



(** C9. [Component.equals] is true exactly when the argument is a
    component (not [null] or [undefined]) whose [_manager] and [_id] are
    [==] to the receiver's, and [$Object.equals] exactly when the argument
    is an object whose [objectId] is [==] to the receiver's. The result
    depends on no other field: wrappers that agree on these fields give
    the same answer. *)
Theorem equals_compares_handles_only :
  (forall a b,
     Component.equals a b = true
     <-> exists b', b = ref b'
                    /\ loose_eq (_manager a) (_manager b') = true
                    /\ loose_eq (_id a) (_id b') = true)
  /\ (forall a b,
        Object.equals a b = true
        <-> exists b', b = ref b'
                       /\ loose_eq (objectId a) (objectId b') = true)
  /\ (forall a a' b b',
        _manager a = _manager a' -> _id a = _id a' ->
        _manager b = _manager b' -> _id b = _id b' ->
        Component.equals a (ref b) = Component.equals a' (ref b'))
  /\ (forall x y : Z,
        loose_eq (HNum x) (HNum y) = true <-> x = y).
Proof.
  split; [| split; [| split]].
  - intros a b. split.
    + destruct b as [| | b']; simpl; try discriminate.
      intros E. apply andb_true_iff in E. exists b'. tauto.
    + intros (b' & -> & E1 & E2). simpl. rewrite E1, E2. reflexivity.
  - intros a b. split.
    + destruct b as [| | b']; simpl; try discriminate.
      intros E. exists b'. tauto.
    + intros (b' & -> & E). exact E.
  - intros a a' b b' E1 E2 E3 E4. simpl. rewrite E1, E2, E3, E4. reflexivity.
  - intros x y. simpl. apply Z.eqb_eq.
Qed.

(** ** Mesh attribute accessor *)

Section AccessorFacts.

Context {number Engine : Type} `{JSNumber number} `{NativeRuntime number Engine}.

Local Abbreviation World := (World number Engine).

Lemma length_check_fails (n cc : Z) :
  cc <> 0 -> ~ (cc | n) -> JS.neq_zero (JS.rem n cc) = true.
Proof.
  intros Hcc Hn. unfold JS.rem.
  destruct (Z.eqb_spec cc 0); [contradiction |]. simpl.
  apply negb_true_iff. apply Z.eqb_neq. intros E.
  apply Hn. apply Z.rem_divide; assumption.
Qed.

Lemma length_check_passes (n cc : Z) :
  cc <> 0 -> (cc | n) -> JS.neq_zero (JS.rem n cc) = false.
Proof.
  intros Hcc Hn. unfold JS.rem.
  destruct (Z.eqb_spec cc 0); [contradiction |]. simpl.
  apply negb_false_iff. apply Z.eqb_eq. apply Z.rem_divide; assumption.
Qed.

Lemma updateTempMemory_outcome (w : World) :
  returns_or_RangeError (updateTempMemory w).
Proof.
  unfold updateTempMemory, bind, gets, update_temp, modify, new_view.
  repeat (destruct (new_TypedArray _ _ _ _); simpl; try exact I).
Qed.

Lemma allocateTempMemory_outcome (n : Z) (w : World) :
  returns_or_RangeError (allocateTempMemory n w).
Proof.
  unfold allocateTempMemory, bind, gets, update_temp, modify, console_log,
    call, ret. simpl.
  destruct (_tempMem (temp w) =? 0); simpl.
  - destruct (native_call _ _ _) as [[r e] h]. simpl.
    match goal with |- context [updateTempMemory ?x] =>
      pose proof (updateTempMemory_outcome x) as E;
      destruct (updateTempMemory x) end; exact E.
  - destruct (native_call _ _ _) as [[r e] h]. simpl.
    destruct (native_call _ _ _) as [[r' e'] h']. simpl.
    match goal with |- context [updateTempMemory ?x] =>
      pose proof (updateTempMemory_outcome x) as E;
      destruct (updateTempMemory x) end; exact E.
Qed.

Lemma requireTempMem_outcome (n : Z) (w : World) :
  returns_or_RangeError (requireTempMem n w).
Proof.
  unfold requireTempMem, bind, gets.
  destruct (n <=? _tempMemSize (temp w)); [exact I |].
  apply allocateTempMemory_outcome.
Qed.

Lemma _tempBufferGetter_outcome (this : MeshAttributeAccessor.t) (n : Z)
    (w : World) :
  returns_or_RangeError (MeshAttributeAccessor._tempBufferGetter this n w).
Proof.
  unfold MeshAttributeAccessor._tempBufferGetter, getTempBufferU16,
    getTempBufferF32.
  destruct (MeshAttributeAccessor._bufferType this); unfold bind;
    match goal with |- context [requireTempMem ?k w] =>
      pose proof (requireTempMem_outcome k w) as E;
      destruct (requireTempMem k w) end; simpl; try exact E; exact I.
Qed.

End AccessorFacts.

Section AccessorTheorems.

Context {number Engine : Type} `{JSNumber number} `{NativeRuntime number Engine}.

Local Abbreviation World := (World number Engine).

Import MeshAttributeAccessor.

(** C3, amended. For a component count in {1,2,3,4}: when the length of
    [out] (of [values]) is not a multiple of the component count, [get]
    ([set]) throws the error whose message says so, and the world is
    untouched: no temporary memory was requested and no native call made.
    When the length is a multiple, zero included, that error is not
    raised: the call returns (or a typed array constructor throws a
    RangeError). *)
Theorem accessor_length_check (this : t) :
  1 <= _componentCount this <= 4 ->
  (forall index out w,
     ~ (_componentCount this | Z.of_nat (Datatypes.length out)) ->
     get this index out w
     = Threw (Error (not_a_multiple (Z.of_nat (Datatypes.length out))
                       (_componentCount this))) w)
  /\ (forall i v w,
        ~ (_componentCount this | array_length v) ->
        set this i v w
        = Threw (Error (not_a_multiple (array_length v)
                          (_componentCount this))) w)
  /\ (forall index out w,
        (_componentCount this | Z.of_nat (Datatypes.length out)) ->
        returns_or_RangeError (get this index out w))
  /\ (forall i v w,
        (_componentCount this | array_length v) ->
        returns_or_RangeError (set this i v w))
  /\ (forall index w, returns_or_RangeError (get this index [] w)).
Proof.
  intros Hcc.
  assert (_componentCount this <> 0) as Hnz by lia.
  assert (forall index out w,
            (_componentCount this | Z.of_nat (Datatypes.length out)) ->
            returns_or_RangeError (get this index out w)) as Hget.
  { intros index out w Hn. unfold get.
    rewrite length_check_passes by assumption. unfold bind at 1.
    pose proof (_tempBufferGetter_outcome this
                  (Z.of_nat (Datatypes.length out)) w) as E.
    destruct (_tempBufferGetter this _ w) as [dest w1 | e w1]; [| exact E].
    unfold bind, call, gets, ret.
    destruct (native_call _ _ _) as [[r e] h]. exact I. }
  split; [| split; [| split; [| split]]].
  - intros index out w Hn. unfold get.
    rewrite length_check_fails by assumption. reflexivity.
  - intros i v w Hn. unfold set.
    rewrite length_check_fails by assumption. reflexivity.
  - exact Hget.
  - intros i v w Hn. unfold set.
    rewrite length_check_passes by assumption. unfold bind at 1.
    destruct v as [xs | a].
    + unfold bind at 1.
      pose proof (_tempBufferGetter_outcome this
                    (array_length (OwnArray xs)) w) as E.
      destruct (_tempBufferGetter this _ w) as [dest w1 | e w1]; [| exact E].
      unfold bind at 1. unfold TypedArray_set.
      destruct (len dest <? Z.of_nat (Datatypes.length xs)).
      * exact I.
      * unfold modify, bind, call, ret.
        destruct (native_call _ _ _) as [[r e] h]. exact I.
    + unfold ret at 1. unfold bind, call, ret.
      destruct (native_call _ _ _) as [[r e] h]. exact I.
  - intros index w. apply Hget. simpl. apply Z.divide_0_r.
Qed.

End AccessorTheorems.

Lemma accessor_length_check_witness :
  MeshAttributeAccessor.get position_accessor 0
    [VNumber 0; VNumber 0; VNumber 0; VNumber 0] world_1kb
  = Threw (Error "out.length, 4 is not a multiple of the attribute vector components, 3")
      world_1kb.
Proof.
  apply (accessor_length_check position_accessor).
  - simpl. lia.
  - simpl. intros [k Hk]. lia.
Defined.

(** C3 as stated fails at length 0, which is not a positive multiple of
    the component count: [get] and [set] pass the length check, make the
    native call and return. *)
Lemma accessor_empty_array_accepted :
  ~ (exists k : Z, 0 < k /\ Z.of_nat (length (@nil (Value Z))) = k * 3)
  /\ (exists w',
        MeshAttributeAccessor.get position_accessor 0 [] world_1kb = Ok [] w'
        /\ calls (native w')
           = [_wl_mesh_get_attribute_values 0 12 0 12 12 16 0])
  /\ (exists w',
        MeshAttributeAccessor.set position_accessor 0 (OwnArray []) world_1kb
        = Ok position_accessor w'
        /\ calls (native w')
           = [_wl_mesh_set_attribute_values 0 12 16 0 12 0 12]).
Proof.
  split; [| split].
  - intros (k & Hk & E). simpl in E. lia.
  - eexists. split; [vm_compute; reflexivity | reflexivity].
  - eexists. split; [vm_compute; reflexivity | reflexivity].
Qed.

(** ** Typed array elements on the heap *)

Lemma byte_of_Z_value (z : Z) : Z.of_N (Byte.to_N (byte_of_Z z)) = z mod 256.
Proof.
  unfold byte_of_Z.
  pose proof (Z.mod_pos_bound z 256 ltac:(lia)) as B.
  destruct (Byte.of_N (Z.to_N (z mod 256))) as [b |] eqn:E.
  - simpl. apply Byte.to_of_N in E. rewrite E. lia.
  - apply Byte.of_N_None_iff in E. lia.
Qed.

Lemma le_combine_split (n : nat) (z : Z) :
  le_combine (le_split n z) = z mod 256 ^ Z.of_nat n.
Proof.
  revert z. induction n as [| n IH]; intros z.
  - simpl. rewrite Z.mod_1_r. reflexivity.
  - cbn [le_split le_combine]. rewrite byte_of_Z_value, IH.
    rewrite Nat2Z.inj_succ, Z.pow_succ_r by lia.
    rewrite Z.rem_mul_r by lia. reflexivity.
Qed.

Lemma length_le_split (n : nat) (z : Z) : length (le_split n z) = n.
Proof. revert z. induction n as [| n IH]; intros z; simpl; congruence. Qed.

Lemma in_heap_true (h : Heap) (addr n : Z) :
  in_heap h addr n = true <-> 0 <= addr /\ 0 <= n /\ addr + n <= byteLength h.
Proof.
  unfold in_heap. rewrite !andb_true_iff, !Z.leb_le. tauto.
Qed.

Lemma store_length (h : Heap) (addr n bits : Z) :
  length (store h addr n bits) = length h.
Proof.
  unfold store. destruct (in_heap h addr n) eqn:E; [| reflexivity].
  apply in_heap_true in E. unfold byteLength in E.
  rewrite !length_app, length_take, length_le_split, length_drop. lia.
Qed.

Lemma store_lookup_other (h : list byte) (addr n bits : Z) (j : nat) :
  (Z.of_nat j < addr \/ addr + n <= Z.of_nat j) ->
  store h addr n bits !! j = h !! j.
Proof.
  intros Hj. unfold store, Heap. destruct (in_heap h addr n) eqn:E; [| reflexivity].
  apply in_heap_true in E. unfold byteLength in E.
  destruct Hj as [Hj | Hj].
  - rewrite lookup_app_l by (rewrite length_take; lia).
    apply lookup_take_lt. lia.
  - rewrite lookup_app_r by (rewrite length_take; lia).
    rewrite lookup_app_r by (rewrite length_take, length_le_split; lia).
    rewrite lookup_drop. f_equal.
    rewrite length_take, length_le_split. lia.
Qed.

Lemma load_store_same (h : Heap) (addr n bits : Z) :
  in_heap h addr n = true ->
  load (store h addr n bits) addr n = Some (bits mod 256 ^ n).
Proof.
  intros E. unfold load, in_heap, byteLength. rewrite store_length.
  fold (byteLength h). fold (in_heap h addr n). rewrite E.
  unfold store. rewrite E. apply in_heap_true in E. unfold byteLength in E.
  f_equal.
  rewrite drop_app_length' by (rewrite length_take; lia).
  rewrite take_app_length' by (rewrite length_le_split; reflexivity).
  rewrite le_combine_split. rewrite Z2Nat.id by lia. reflexivity.
Qed.

Lemma load_store_other (h : Heap) (addr n bits addr' n' : Z) :
  addr' + n' <= addr \/ addr + n <= addr' ->
  load (store h addr n bits) addr' n' = load h addr' n'.
Proof.
  intros Hd. unfold load, in_heap, byteLength. rewrite store_length.
  destruct ((0 <=? addr') && (0 <=? n')
            && (addr' + n' <=? Z.of_nat (length h))) eqn:E; [| reflexivity].
  rewrite !andb_true_iff, !Z.leb_le in E. f_equal. f_equal.
  apply list_eq. intros i.
  destruct (Nat.lt_ge_cases i (Z.to_nat n')) as [Hi | Hi].
  - rewrite !lookup_take_lt, !lookup_drop by lia.
    apply store_lookup_other. lia.
  - rewrite !lookup_take_ge by lia. reflexivity.
Qed.

Lemma element_set_element_same (h : Heap) (a : TypedArray) (i bits : Z) :
  view_in_heap h a -> 0 <= i < len a ->
  element (set_element h a i bits) a i
  = Some (bits mod 256 ^ BYTES_PER_ELEMENT (elementType a)).
Proof.
  intros (Ho & Hl & Hfit) Hi. unfold element, set_element.
  destruct (Z.leb_spec 0 i); [| lia]. destruct (Z.ltb_spec i (len a)); [| lia].
  simpl. apply load_store_same. apply in_heap_true.
  assert (0 < BYTES_PER_ELEMENT (elementType a))
    by (destruct (elementType a); simpl; lia).
  nia.
Qed.

Lemma element_set_element_other (h : Heap) (a : TypedArray) (i j bits : Z) :
  i <> j -> 0 <= j ->
  element (set_element h a i bits) a j = element h a j.
Proof.
  intros Hne Hj. unfold element, set_element.
  destruct ((0 <=? i) && (i <? len a)) eqn:Ei; [| reflexivity].
  destruct ((0 <=? j) && (j <? len a)) eqn:Ej; [| reflexivity].
  rewrite andb_true_iff, Z.leb_le, Z.ltb_lt in Ei.
  apply load_store_other.
  assert (0 < BYTES_PER_ELEMENT (elementType a))
    by (destruct (elementType a); simpl; lia).
  nia.
Qed.

Lemma set_element_length (h : Heap) (a : TypedArray) (i bits : Z) :
  byteLength (set_element h a i bits) = byteLength h.
Proof.
  unfold set_element, byteLength.
  destruct (_ && _); [rewrite store_length |]; reflexivity.
Qed.


Section WriteAll.

Context {number : Type} `{JSNumber number}.




Lemma write_all_element_before (xs : list number) :
  forall (h : Heap) (a : TypedArray) (k j : Z),
    0 <= j < k -> element (write_all h a k xs) a j = element h a j.
Proof.
  induction xs as [| x xs IH]; intros h a k j Hj; simpl; [reflexivity |].
  rewrite IH by lia. unfold write. apply element_set_element_other; lia.
Qed.

(** Reading back what [write_all] staged. *)
Lemma write_all_element (xs : list number) :
  forall (h : Heap) (a : TypedArray) (k : Z) (j : nat) (x : number),
    view_in_heap h a -> 0 <= k ->
    xs !! j = Some x -> k + Z.of_nat j < len a ->
    element (write_all h a k xs) a (k + Z.of_nat j)
    = Some (encode (elementType a) x
            mod 256 ^ BYTES_PER_ELEMENT (elementType a)).
Proof.
  induction xs as [| y xs IH]; intros h a k j x Hv Hk Hx Hj;
    [discriminate |].
  destruct j as [| j].
  - injection Hx as ->. simpl. rewrite Z.add_0_r.
    rewrite write_all_element_before by lia.
    unfold write. apply element_set_element_same; [exact Hv | lia].
  - simpl in Hx. cbn [write_all].
    replace (k + Z.of_nat (S j)) with ((k + 1) + Z.of_nat j) by lia.
    apply IH; try lia; try exact Hx.
    unfold write, view_in_heap. rewrite set_element_length. exact Hv.
Qed.

End WriteAll.

(** ** Material properties *)

Section MaterialTheorems.

Context {number Engine : Type} `{JSNumber number} `{NativeRuntime number Engine}
  `{Material.Environment number Engine}.

Local Abbreviation World := (World number Engine).
Local Abbreviation Target := (Material.Target number).

Lemma definition_of_found (target : Target) (w : World) definition :
  _materialDefinitions (_WL w) (Material.property target "_definition")
  = Some definition ->
  Material.definition_of target w = Ok definition w.
Proof.
  intros E. unfold Material.definition_of, bind, gets. rewrite E. reflexivity.
Qed.

(** C4. Assigning any value to a property that the material's definition
    maps to a Font parameter throws the error "Setting font properties is
    currently unsupported."; nothing else happens (no native call, the
    world is the same). *)
Theorem Material_set_font_unsupported (target : Target) (prop : string)
    (value : Value number) (w : World) definition param :
  _materialDefinitions (_WL w) (Material.property target "_definition")
  = Some definition ->
  definition !! prop = Some param ->
  param_type param = MaterialParamType.Font ->
  Material.set target prop value w
  = Threw (Error "Setting font properties is currently unsupported.") w.
Proof.
  intros Hd Hp Ht. unfold Material.set. unfold bind at 1.
  rewrite (definition_of_found _ _ _ Hd). rewrite Hp, Ht. reflexivity.
Qed.

(** C5, amended. For a Sampler parameter, setting a Texture wrapper whose
    id is [x] has exactly the outcome of setting the raw number [x]: the
    same native call with the same handle, in the same state. Any value
    is accepted: the handler extracts the id of a Texture and forwards
    every other value as it is to [_wl_material_set_param_value_uint]; it
    raises no type error. *)
Theorem Material_set_sampler (target : Target) (prop : string) (w : World)
    definition param :
  _materialDefinitions (_WL w) (Material.property target "_definition")
  = Some definition ->
  definition !! prop = Some param ->
  param_type param = MaterialParamType.Sampler ->
  (forall x imageIndex,
     Material.set target prop (VTexture (VNumber x) imageIndex) w
     = Material.set target prop (VNumber x) w)
  /\ (forall value,
        exists w',
          Material.set target prop value w = Ok (true, target) w'
          /\ calls (native w')
             = calls (native w)
               ++ [_wl_material_set_param_value_uint
                     (Material.property target "_index") (param_index param)
                     (match value with
                      | VTexture id _ => id
                      | _ => value
                      end)]).
Proof.
  intros Hd Hp Ht. split.
  - intros x imageIndex. unfold Material.set, bind.
    rewrite !(definition_of_found _ _ _ Hd). rewrite Hp, Ht. reflexivity.
  - intros value. unfold Material.set. unfold bind at 1.
    rewrite (definition_of_found _ _ _ Hd). rewrite Hp, Ht. simpl.
    unfold bind, call, ret.
    destruct (native_call _ _ _) as [[r e] h].
    eexists. split; reflexivity.
Qed.


(** C7, amended. For a property named in the material's definition, when
    the runtime answers [_wl_material_get_param_value] with 0 (the
    parameter is unset) the read returns [undefined]: it does not throw
    and reads nothing from the temporary memory. For a name that is not
    in the definition the read is an ordinary property access on the
    instance. An own property yields the value stored, with no native
    call. When the instance has no such property, on the prototype chain
    it was constructed with: a name the chain does not have yields
    [undefined] and an inherited member other than [shader] yields that
    member (the class for [constructor], the prototype for [__proto__],
    the method for [clone] and for the methods of [Object.prototype]),
    both with no native call; [shader] runs the getter of the class,
    which calls [_wl_material_get_shader] with the material's index and
    returns the string at the pointer answered. *)
Theorem Material_get_unset_or_absent (target : Target) (prop : string)
    (w : World) definition :
  _materialDefinitions (_WL w) (Material.property target "_definition")
  = Some definition ->
  (forall param,
     definition !! prop = Some param ->
     (native_call
        (_wl_material_get_param_value
           (Material.property target "_index") (param_index param)
           (_tempMem (temp w)))
        (engine (native w)) (HEAP (native w))).1.1 = 0 ->
     exists w',
       Material.get target prop w = Ok (Material.RValue VUndefined) w'
       /\ calls (native w')
          = calls (native w)
            ++ [_wl_material_get_param_value
                  (Material.property target "_index") (param_index param)
                  (_tempMem (temp w))]
       /\ textures w' = textures w)
  /\ (definition !! prop = None ->
      (forall v,
         Material.own_property target prop = Some v ->
         Material.get target prop w = Ok (Material.RValue v) w)
      /\ (Material.own_property target prop = None ->
          Material.Prototype target = None ->
          (prop ∉ Material.inherited_names ->
           Material.get target prop w = Ok (Material.RValue VUndefined) w)
          /\ (prop ∈ Material.inherited_names -> prop <> "shader" ->
              Material.get target prop w
              = Ok (Material.RMember
                      (if String.eqb prop "constructor" then "Material"
                       else if String.eqb prop "__proto__"
                       then "Material.prototype"
                       else if String.eqb prop "clone"
                       then "Material.prototype.clone"
                       else "Object.prototype." +:+ prop)) w)
          /\ (prop = "shader" ->
              let c := _wl_material_get_shader
                         (Material.property target "_index") in
              let r := native_call c (engine (native w)) (HEAP (native w)) in
              Material.get target prop w
              = Ok (Material.RString (Material.UTF8ToString r.2 r.1.1))
                  (set_native
                     (mkNative r.1.2 r.2 (calls (native w) ++ [c])) w)))).
Proof.
  intros Hd. split.
  - intros param Hp Hr. unfold Material.get. unfold bind at 1.
    rewrite (definition_of_found _ _ _ Hd). rewrite Hp.
    unfold bind, call, gets. simpl.
    destruct (native_call _ _ _) as [[r e] h]. simpl in Hr. subst r. simpl.
    eexists. split; [reflexivity |]. split; reflexivity.
  - intros Hp.
    assert (Material.get target prop w = Material.target_get target prop w)
      as ->.
    { unfold Material.get. unfold bind at 1.
      rewrite (definition_of_found _ _ _ Hd). rewrite Hp. reflexivity. }
    unfold Material.target_get. split.
    + intros v ->. reflexivity.
    + intros -> ->. split; [| split].
      * intros Hn. unfold Material.inherited_names in Hn. cbn [app] in Hn.
        rewrite !not_elem_of_cons in Hn.
        destruct Hn as (N1 & N2 & N3 & N4 & Hn).
        apply String.eqb_neq in N1, N2, N3, N4. rewrite N1, N2, N3, N4.
        rewrite bool_decide_eq_false_2 by exact Hn. reflexivity.
      * intros Hin Hs. apply String.eqb_neq in Hs. rewrite Hs.
        destruct (String.eqb_spec prop "constructor") as [| N1];
          [reflexivity |].
        destruct (String.eqb_spec prop "clone") as [-> | N2];
          [reflexivity |].
        destruct (String.eqb_spec prop "__proto__") as [| N3];
          [reflexivity |].
        destruct (bool_decide_reflect (prop ∈ Material.Object_prototype_methods))
          as [| N4]; [reflexivity |].
        exfalso. apply String.eqb_neq in Hs.
        unfold Material.inherited_names in Hin. cbn [app] in Hin.
        rewrite !elem_of_cons in Hin. tauto.
      * intros ->. simpl. unfold Material.shader, bind, call, gets, ret.
        cbv zeta. destruct (native_call _ _ _) as [[r e] h]. reflexivity.
Qed.

End MaterialTheorems.

Lemma Material_set_font_unsupported_witness :
  Material.set phong_material "font" (VNumber 1) material_world
  = Threw (Error "Setting font properties is currently unsupported.")
      material_world.
Proof.
  apply (Material_set_font_unsupported phong_material "font" (VNumber 1)
           material_world phong_definition
           (mkMaterialParam 3 MaterialParamType.Font 1)); reflexivity.
Defined.

Lemma Material_set_sampler_witness :
  Material.set phong_material "diffuseTexture"
    (VTexture (VNumber 9) VUndefined) material_world
  = Material.set phong_material "diffuseTexture" (VNumber 9) material_world.
Proof.
  apply (Material_set_sampler phong_material "diffuseTexture" material_world
           phong_definition (mkMaterialParam 0 MaterialParamType.Sampler 1));
    reflexivity.
Defined.

(** C5 as stated fails for a value that is neither a number nor a
    Texture: [null] is forwarded to the native call and the assignment
    succeeds. *)
Lemma Material_set_sampler_accepts_null :
  exists w',
    Material.set phong_material "diffuseTexture" VNull material_world
    = Ok (true, phong_material) w'
    /\ calls (native w')
       = [_wl_material_set_param_value_uint (VNumber 5) 0 VNull].
Proof.
  eexists. split; [vm_compute; reflexivity | reflexivity].
Qed.



Lemma Material_get_unset_or_absent_witness :
  (exists w',
     Material.get phong_material "diffuseColor" material_world
     = Ok (Material.RValue VUndefined) w'
     /\ calls (native w') = [_wl_material_get_param_value (VNumber 5) 1 16]
     /\ textures w' = [])
  /\ Material.get phong_material "_index" material_world
     = Ok (Material.RValue (VNumber 5)) material_world
  /\ Material.get phong_material "tag" material_world
     = Ok (Material.RValue VUndefined) material_world.
Proof.
  split; [| split].
  - apply (proj1 (Material_get_unset_or_absent phong_material "diffuseColor"
                    material_world phong_definition eq_refl)
             (mkMaterialParam 1 MaterialParamType.Float 4)); reflexivity.
  - apply (proj1 (proj2 (Material_get_unset_or_absent phong_material "_index"
                           material_world phong_definition eq_refl)
                    eq_refl)).
    reflexivity.
  - apply (proj1 (proj2 (proj2 (Material_get_unset_or_absent phong_material
                                  "tag" material_world phong_definition
                                  eq_refl) eq_refl) eq_refl eq_refl)).
    vm_compute. intros Hin. repeat (apply elem_of_cons in Hin as [Hin | Hin];
      [discriminate |]). apply elem_of_nil in Hin. exact Hin.
Defined.

(** C7 as stated fails for [shader], a name no definition table has to
    contain: the read does not come from the instance's own storage, it
    runs the getter of the class, which calls the runtime. [clone] yields
    the method of the class. *)
Lemma Material_get_shader_runs_getter :
  phong_definition !! "shader" = None
  /\ Material.own_property phong_material "shader" = None
  /\ (exists w',
        Material.get phong_material "shader" material_world
        = Ok (Material.RString "") w'
        /\ calls (native w') = [_wl_material_get_shader (VNumber 5)])
  /\ Material.get phong_material "clone" material_world
     = Ok (Material.RMember "Material.prototype.clone") material_world.
Proof.
  split; [reflexivity |]. split; [reflexivity |]. split.
  - eexists. split; [vm_compute; reflexivity | reflexivity].
  - reflexivity.
Qed.

(** ** Ray hits *)

Lemma le_combine_bounds (bs : list byte) :
  0 <= le_combine bs < 256 ^ Z.of_nat (length bs).
Proof.
  induction bs as [| b bs IH].
  - simpl. lia.
  - cbn [le_combine length]. rewrite Nat2Z.inj_succ, Z.pow_succ_r by lia.
    pose proof (Byte.to_N_bounded b). lia.
Qed.

Lemma load_bounds (h : Heap) (addr n v : Z) :
  load h addr n = Some v -> 0 <= v < 256 ^ n.
Proof.
  unfold load, in_heap, byteLength. intros E.
  destruct (0 <=? addr) eqn:E1; [| discriminate].
  destruct (0 <=? n) eqn:E2; [| discriminate].
  destruct (addr + n <=? Z.of_nat (length h)) eqn:E3; [| discriminate].
  simpl in E. injection E as <-.
  pose proof (le_combine_bounds (take (Z.to_nat n) (drop (Z.to_nat addr) h)))
    as B.
  rewrite length_take, length_drop in B.
  replace (Z.of_nat (Z.to_nat n `min` (length h - Z.to_nat addr))) with n
    in B by lia.
  exact B.
Qed.

Lemma counter_in_block (h : Heap) (this : RayHit.t) :
  0 <= RayHit._ptr this -> RayHit._ptr this mod 4 = 0 ->
  RayHit._ptr this + 124 <= byteLength h ->
  exists c, RayHit.counter h this = Some c
            /\ load h (RayHit._ptr this + 120) 4 = Some c.
Proof.
  intros Hp Ha Hl. unfold RayHit.counter, element, HEAPU32. simpl.
  rewrite Ha. simpl.
  pose proof (Z.div_mod (RayHit._ptr this) 4 ltac:(lia)) as D.
  rewrite Ha in D.
  assert (RayHit._ptr this / 4 + 31 <= byteLength h / 4) as Hd.
  { replace (RayHit._ptr this / 4 + 31)
      with ((RayHit._ptr this + 124) / 4).
    - apply Z.div_le_mono; lia.
    - replace (RayHit._ptr this + 124) with (RayHit._ptr this + 31 * 4) by lia.
      rewrite Z.div_add by lia. reflexivity. }
  destruct (Z.leb_spec 0 (RayHit._ptr this / 4 + 30)); [| lia].
  destruct (Z.ltb_spec (RayHit._ptr this / 4 + 30) (byteLength h / 4)); [| lia].
  simpl.
  replace (0 + (RayHit._ptr this / 4 + 30) * 4) with (RayHit._ptr this + 120)
    by lia.
  unfold load, in_heap.
  destruct (Z.leb_spec 0 (RayHit._ptr this + 120)); [| lia].
  destruct (Z.leb_spec (RayHit._ptr this + 120 + 4) (byteLength h)); [| lia].
  simpl. eexists. split; reflexivity.
Qed.

Lemma push_views_in_heap (h : Heap) (p : Z) (n : nat) :
  forall (i : Z) (l : list TypedArray),
    0 <= p -> p mod 4 = 0 -> 0 <= i ->
    p + 12 * (i + Z.of_nat n) <= byteLength h ->
    RayHit.push_views h p i n l
    = inr (l ++ map (fun k => mkTypedArray Float32 (p + 12 * k) 3)
                  (seqZ i (Z.of_nat n))).
Proof.
  induction n as [| n IH]; intros i l Hp Ha Hi Hl.
  - simpl. rewrite app_nil_r. reflexivity.
  - cbn [RayHit.push_views]. unfold new_TypedArray. simpl BYTES_PER_ELEMENT.
    assert ((p + 12 * i) mod 4 = 0) as Hm.
    { replace (p + 12 * i) with (p + (3 * i) * 4) by lia.
      rewrite Z.mod_add by lia. exact Ha. }
    rewrite Hm.
    destruct (Z.leb_spec 0 (p + 12 * i)); [| lia].
    destruct (Z.leb_spec (p + 12 * i + 3 * 4) (byteLength h)); [| lia].
    simpl. rewrite IH by lia.
    rewrite (seqZ_cons i (Z.of_nat (S n))) by lia.
    replace (Z.pred (Z.of_nat (S n))) with (Z.of_nat n) by lia.
    rewrite <- app_assoc. reflexivity.
Qed.

(** C10. [hitCount] is never more than 4 (nor negative). For a hit block
    that lies in the heap at an aligned address, whatever its contents:
    [hitCount] is the minimum of the block's unsigned 32-bit hit counter
    and 4, and [locations] and [normals] each return exactly [hitCount]
    arrays of three floats, laid 12 bytes apart from the start of the
    block and from offset 48. *)
Theorem RayHit_hitCount_bounded (h : Heap) (this : RayHit.t) :
  (forall n, RayHit.hitCount h this = Some n -> 0 <= n <= 4)
  /\ (0 <= RayHit._ptr this -> RayHit._ptr this mod 4 = 0 ->
      RayHit._ptr this + 124 <= byteLength h ->
      exists nativeCount ls ns,
        load h (RayHit._ptr this + 120) 4 = Some nativeCount
        /\ 0 <= nativeCount < 2 ^ 32
        /\ RayHit.hitCount h this = Some (Z.min nativeCount 4)
        /\ RayHit.locations h this = inr ls
        /\ RayHit.normals h this = inr ns
        /\ Z.of_nat (length ls) = Z.min nativeCount 4
        /\ Z.of_nat (length ns) = Z.min nativeCount 4
        /\ Forall (fun a => elementType a = Float32 /\ len a = 3) ls
        /\ Forall (fun a => elementType a = Float32 /\ len a = 3) ns
        /\ ls = map (fun i => mkTypedArray Float32 (RayHit._ptr this + 12 * i) 3)
                  (seqZ 0 (Z.min nativeCount 4))
        /\ ns = map (fun i =>
                       mkTypedArray Float32 (RayHit._ptr this + 48 + 12 * i) 3)
                  (seqZ 0 (Z.min nativeCount 4))).
Proof.
  split.
  - intros n. unfold RayHit.hitCount, RayHit.counter, element.
    destruct (RayHit._ptr this mod 4 =? 0); [| discriminate].
    destruct (_ && _); [| discriminate].
    destruct (load _ _ _) as [c |] eqn:E; [| discriminate].
    simpl. intros [= <-]. apply load_bounds in E. lia.
  - intros Hp Ha Hl.
    destruct (counter_in_block h this Hp Ha Hl) as (c & Hc & Hload).
    pose proof (load_bounds _ _ _ _ Hload) as Hb.
    assert (RayHit.hitCount h this = Some (Z.min c 4)) as Hh.
    { unfold RayHit.hitCount. rewrite Hc. reflexivity. }
    exists c. eexists _, _.
    split; [exact Hload |]. split; [simpl in Hb; lia |].
    split; [exact Hh |].
    unfold RayHit.locations, RayHit.normals. rewrite Hh. simpl RayHit.iterations.
    rewrite !push_views_in_heap by (try lia;
      replace (RayHit._ptr this + 48) with (RayHit._ptr this + 12 * 4) by lia;
      rewrite Z.mod_add by lia; exact Ha).
    simpl app. rewrite Z2Nat.id by lia.
    split; [reflexivity |]. split; [reflexivity |].
    rewrite !length_map, !length_seqZ.
    split; [lia |]. split; [lia |].
    split; [| split; [| split; reflexivity]].
    + apply Forall_map. apply Forall_forall. intros; split; reflexivity.
    + apply Forall_map. apply Forall_forall. intros; split; reflexivity.
Qed.

Lemma RayHit_hitCount_bounded_witness :
  RayHit.hitCount ray_heap (RayHit.mk 16) = Some 4
  /\ exists ls ns,
       RayHit.locations ray_heap (RayHit.mk 16) = inr ls
       /\ RayHit.normals ray_heap (RayHit.mk 16) = inr ns
       /\ length ls = 4%nat /\ length ns = 4%nat.
Proof.
  destruct (proj2 (RayHit_hitCount_bounded ray_heap (RayHit.mk 16)))
    as (c & ls & ns & Hload & _ & Hh & Hl & Hn & Hll & Hln & _).
  - simpl. lia.
  - reflexivity.
  - vm_compute. discriminate.
  - vm_compute in Hload. injection Hload as <-.
    split; [exact Hh |]. exists ls, ns.
    split; [exact Hl |]. split; [exact Hn |]. simpl in Hll, Hln. lia.
Defined.

(** * Further properties of the modelled code *)

(** ** Temporary memory: views, capacity of the buffers handed out, growth *)

Lemma new_TypedArray_Some (h : Heap) (k : ElementType) (off n : Z)
    (a : TypedArray) :
  new_TypedArray h k off n = Some a ->
  a = mkTypedArray k off n
  /\ 0 <= off /\ off mod BYTES_PER_ELEMENT k = 0 /\ 0 <= n
  /\ off + n * BYTES_PER_ELEMENT k <= byteLength h.
Proof.
  unfold new_TypedArray.
  destruct (Z.leb_spec 0 off); [| discriminate].
  destruct (Z.eqb_spec (off mod BYTES_PER_ELEMENT k) 0); [| discriminate].
  destruct (Z.leb_spec 0 n); [| discriminate].
  destruct (Z.leb_spec (off + n * BYTES_PER_ELEMENT k) (byteLength h));
    [| discriminate].
  simpl. intros [= <-]. repeat split; assumption.
Qed.

Lemma shr_small (x k : Z) :
  0 <= x < 2 ^ 31 -> 0 <= k < 32 -> JS.shr x k = x / 2 ^ k.
Proof.
  intros Hx Hk. unfold JS.shr, JS.ToInt32.
  rewrite (Z.mod_small k 32) by lia.
  replace ((x + 2 ^ 31) mod 2 ^ 32 - 2 ^ 31) with x.
  - apply Z.shiftr_div_pow2. lia.
  - rewrite Z.mod_small by lia. lia.
Qed.

Section TempMemMore.

Context {number Engine : Type} `{NativeRuntime number Engine}.

Local Abbreviation World := (World number Engine).

Lemma updateTempMemory_returns (w w' : World) :
  updateTempMemory w = Ok tt w' ->
  let p := _tempMem (temp w) in
  let n := _tempMemSize (temp w) in
  w' = set_temp
         (mkTempMemory p n
            (mkTypedArray Float32 p (JS.shr n 2))
            (mkTypedArray Int32 p (JS.shr n 2))
            (mkTypedArray Uint32 p (JS.shr n 2))
            (mkTypedArray Uint16 p (JS.shr n 1))
            (mkTypedArray Uint8 p n)) w
  /\ 0 <= p /\ p mod 4 = 0 /\ 0 <= n
  /\ p + n <= byteLength (HEAP (native w)).
Proof.
  unfold updateTempMemory, bind, gets, update_temp, modify, new_view. simpl.
  destruct (new_TypedArray _ Float32 _ _) as [f |] eqn:Ef; [| discriminate].
  simpl.
  destruct (new_TypedArray _ Int32 _ _) as [i |] eqn:Ei; [| discriminate].
  simpl.
  destruct (new_TypedArray _ Uint32 _ _) as [u |] eqn:Eu; [| discriminate].
  simpl.
  destruct (new_TypedArray _ Uint16 _ _) as [s |] eqn:Es; [| discriminate].
  simpl.
  destruct (new_TypedArray _ Uint8 _ _) as [b |] eqn:Eb; [| discriminate].
  simpl. intros [= <-].
  apply new_TypedArray_Some in Ef as (-> & Hp & Ha & _ & _).
  apply new_TypedArray_Some in Ei as (-> & _).
  apply new_TypedArray_Some in Eu as (-> & _).
  apply new_TypedArray_Some in Es as (-> & _).
  apply new_TypedArray_Some in Eb as (-> & _ & _ & Hn & Hfit).
  simpl in *. split; [reflexivity |]. repeat split; try assumption. lia.
Qed.

Lemma allocateTempMemory_returns (n : Z) (w w' : World) :
  allocateTempMemory n w = Ok tt w' ->
  _tempMemSize (temp w') = n
  /\ _tempMemFloat (temp w')
     = mkTypedArray Float32 (_tempMem (temp w')) (JS.shr n 2)
  /\ _tempMemInt (temp w')
     = mkTypedArray Int32 (_tempMem (temp w')) (JS.shr n 2)
  /\ _tempMemUint32 (temp w')
     = mkTypedArray Uint32 (_tempMem (temp w')) (JS.shr n 2)
  /\ _tempMemUint16 (temp w')
     = mkTypedArray Uint16 (_tempMem (temp w')) (JS.shr n 1)
  /\ _tempMemUint8 (temp w') = mkTypedArray Uint8 (_tempMem (temp w')) n
  /\ 0 <= _tempMem (temp w') /\ _tempMem (temp w') mod 4 = 0 /\ 0 <= n
  /\ _tempMem (temp w') + n <= byteLength (HEAP (native w')).
Proof.
  unfold allocateTempMemory, bind, gets, update_temp, modify, console_log,
    call, ret. simpl.
  destruct (_tempMem (temp w) =? 0); simpl.
  - destruct (native_call _ _ _) as [[r e] h]. simpl.
    match goal with |- context [updateTempMemory ?x] =>
      destruct (updateTempMemory x) as [[] w1 | e1 w1] eqn:E end;
      [| discriminate].
    intros [= <-]. apply updateTempMemory_returns in E. cbv zeta in E.
    destruct E as (-> & Hp & Ha & Hn & Hfit). simpl in *.
    repeat split; assumption.
  - destruct (native_call _ _ _) as [[r e] h]. simpl.
    destruct (native_call _ _ _) as [[r' e'] h']. simpl.
    match goal with |- context [updateTempMemory ?x] =>
      destruct (updateTempMemory x) as [[] w1 | e1 w1] eqn:E end;
      [| discriminate].
    intros [= <-]. apply updateTempMemory_returns in E. cbv zeta in E.
    destruct E as (-> & Hp & Ha & Hn & Hfit). simpl in *.
    repeat split; assumption.
Qed.

End TempMemMore.

Section TempMemExtras.

Context {number Engine : Type} `{NativeRuntime number Engine}.

Local Abbreviation World := (World number Engine).

Lemma requireTempMem_reaches (s : Z) (w : World) :
  s <= _tempMemSize (temp (world_of (requireTempMem s w))).
Proof.
  destruct (Z.le_gt_cases s (_tempMemSize (temp w))) as [Hs | Hs].
  - rewrite (requireTempMem_enough s w Hs). exact Hs.
  - rewrite (requireTempMem_grow s w Hs).
    pose proof (grow_in_1kb_increments s) as G. cbv zeta in G. lia.
Qed.

Lemma requireTempMem_consistent (s : Z) (w w' : World) :
  temp_views_consistent (temp w) -> s <= 2 ^ 31 - 1024 ->
  requireTempMem s w = Ok tt w' ->
  temp_views_consistent (temp w') /\ s <= _tempMemSize (temp w').
Proof.
  intros Hc Hs E. split.
  - destruct (Z.le_gt_cases s (_tempMemSize (temp w))) as [Hle | Hgt].
    + rewrite (requireTempMem_enough s w Hle) in E. injection E as <-. exact Hc.
    + unfold requireTempMem, bind, gets in E.
      destruct (Z.leb_spec s (_tempMemSize (temp w))); [lia |].
      apply allocateTempMemory_returns in E.
      destruct E as (Hn & Hf & Hi & Hu & Hs16 & Hu8 & _ & _ & Hpos & _).
      pose proof (grow_in_1kb_increments s) as G. cbv zeta in G.
      unfold temp_views_consistent. rewrite Hn.
      repeat split; try assumption; lia.
  - pose proof (requireTempMem_reaches s w) as R. rewrite E in R. exact R.
Qed.

(** X1. When [allocateTempMemory(n)] returns, the capacity is [n], the
    block the allocator gave is 4-aligned and lies inside the heap, and
    the five views all start at the block and span it: [n >> 2] floats,
    int32s and uint32s, [n >> 1] uint16s and [n] bytes. *)
Theorem allocateTempMemory_views (n : Z) (w w' : World) :
  allocateTempMemory n w = Ok tt w' -> n < 2 ^ 31 ->
  temp_views_consistent (temp w')
  /\ _tempMemSize (temp w') = n
  /\ _tempMem (temp w') mod 4 = 0
  /\ 0 <= _tempMem (temp w')
  /\ _tempMem (temp w') + n <= byteLength (HEAP (native w'))
  /\ view_in_heap (HEAP (native w')) (_tempMemFloat (temp w'))
  /\ view_in_heap (HEAP (native w')) (_tempMemInt (temp w'))
  /\ view_in_heap (HEAP (native w')) (_tempMemUint32 (temp w'))
  /\ view_in_heap (HEAP (native w')) (_tempMemUint16 (temp w'))
  /\ view_in_heap (HEAP (native w')) (_tempMemUint8 (temp w')).
Proof.
  intros E Hn. apply allocateTempMemory_returns in E.
  destruct E as (Hsz & Hf & Hi & Hu & Hs & Hb & Hp & Ha & Hpos & Hfit).
  assert (0 <= n / 4 /\ n / 4 * 4 <= n) as H4.
  { pose proof (Z.div_mod n 4 ltac:(lia)).
    pose proof (Z.mod_pos_bound n 4 ltac:(lia)). split; [| lia].
    apply Z.div_pos; lia. }
  assert (0 <= n / 2 /\ n / 2 * 2 <= n) as H2.
  { pose proof (Z.div_mod n 2 ltac:(lia)).
    pose proof (Z.mod_pos_bound n 2 ltac:(lia)). split; [| lia].
    apply Z.div_pos; lia. }
  split.
  { unfold temp_views_consistent. rewrite Hsz.
    repeat split; try assumption; lia. }
  split; [exact Hsz |]. split; [exact Ha |]. split; [exact Hp |].
  split; [exact Hfit |].
  unfold view_in_heap. rewrite Hf, Hi, Hu, Hs, Hb. simpl.
  rewrite !shr_small by lia. change (2 ^ 2) with 4. change (2 ^ 1) with 2.
  repeat split; lia.
Qed.

(** X2. With consistent views, the buffer a [getTempBuffer*] call returns
    can hold the [count] elements asked for: its length is at least
    [count], it starts at the temporary block, and the views stay
    consistent, whether or not the call had to grow the memory. *)
Theorem getTempBuffer_holds_count (count : Z) (w : World) :
  temp_views_consistent (temp w) -> 0 <= count ->
  count * 4 <= 2 ^ 31 - 1024 ->
  let fits (k : ElementType) (o : Outcome World TypedArray) :=
    forall a w', o = Ok a w' ->
      count <= len a /\ elementType a = k
      /\ byteOffset a = _tempMem (temp w')
      /\ count * BYTES_PER_ELEMENT k <= _tempMemSize (temp w')
      /\ temp_views_consistent (temp w') in
  fits Uint8 (getTempBufferU8 count w)
  /\ fits Uint16 (getTempBufferU16 count w)
  /\ fits Uint32 (getTempBufferU32 count w)
  /\ fits Int32 (getTempBufferI32 count w)
  /\ fits Float32 (getTempBufferF32 count w).
Proof.
  intros Hc Hcount Hmax. cbv zeta.
  assert (forall s (view : TempMemory -> TypedArray) (k : ElementType) a w',
            s <= 2 ^ 31 - 1024 ->
            bind (requireTempMem s) (fun _ => gets (fun w => view (temp w))) w
            = Ok a w' ->
            a = view (temp w') /\ s <= _tempMemSize (temp w')
            /\ temp_views_consistent (temp w')) as Step.
  { intros s view k a w' Hs E. unfold bind in E.
    destruct (requireTempMem s w) as [[] w1 | e w1] eqn:R; [| discriminate].
    unfold gets in E. injection E as <- <-.
    destruct (requireTempMem_consistent s w w1 Hc Hs R) as [Hc1 Hs1].
    split; [reflexivity |]. split; assumption. }
  split; [| split; [| split; [| split]]]; intros a w' E;
    apply (Step _ _ Uint8) in E; try lia;
    destruct E as (-> & Hs & Hc'); pose proof Hc' as Hc'';
    destruct Hc' as (Hr & Hf & Hi & Hu & H16 & H8);
    (split; [| split; [| split; [| split]]]);
    try exact Hc'';
    try (rewrite ?Hf, ?Hi, ?Hu, ?H16, ?H8; reflexivity);
    try (simpl; lia);
    rewrite ?Hf, ?Hi, ?Hu, ?H16, ?H8; simpl;
    rewrite ?shr_small by lia;
    try (change (2 ^ 2) with 4); try (change (2 ^ 1) with 2);
    try (apply Z.div_le_lower_bound); lia.
Qed.

(** X3. After any request, whether it returned or threw while rebuilding
    the views, a repeat of the same or a smaller request returns at once:
    no call is made and the world is unchanged. A failed allocation is
    therefore never retried. *)
Theorem requireTempMem_repeat (s s' : Z) (w : World) :
  s' <= s ->
  requireTempMem s' (world_of (requireTempMem s w))
  = Ok tt (world_of (requireTempMem s w)).
Proof.
  intros Hs. apply requireTempMem_enough.
  pose proof (requireTempMem_reaches s w). lia.
Qed.

Lemma malloc_count_app (l l' : list (NativeCall number)) :
  malloc_count (l ++ l') = (malloc_count l + malloc_count l')%nat.
Proof. unfold malloc_count. rewrite List.filter_app, length_app. reflexivity. Qed.

Lemma requireTempMem_step (s : Z) (w : World) :
  _tempMemSize (temp w) mod 1024 = 0 ->
  let w' := world_of (requireTempMem s w) in
  _tempMemSize (temp w') mod 1024 = 0
  /\ 1024 * Z.of_nat (malloc_count (calls (native w')))
     <= 1024 * Z.of_nat (malloc_count (calls (native w)))
        + (_tempMemSize (temp w') - _tempMemSize (temp w)).
Proof.
  intros Hm. cbv zeta.
  destruct (Z.le_gt_cases s (_tempMemSize (temp w))) as [Hs | Hs].
  - rewrite (requireTempMem_enough s w Hs). simpl. split; [exact Hm | lia].
  - rewrite (requireTempMem_grow_calls s w Hs), (requireTempMem_grow s w Hs).
    pose proof (grow_in_1kb_increments s) as G. cbv zeta in G.
    destruct G as [Gb Gm]. split; [exact Gm |].
    rewrite !malloc_count_app.
    assert (malloc_count
              (if _tempMem (temp w) =? 0 then []
               else [_free (number := number) (_tempMem (temp w))]) = 0%nat)
      as ->.
    { destruct (_tempMem (temp w) =? 0); reflexivity. }
    change (malloc_count [_malloc _]) with 1%nat.
    apply Z.mod_divide in Hm; [| lia]. apply Z.mod_divide in Gm; [| lia].
    destruct Hm as [a Ha]. destruct Gm as [b Hb]. lia.
Qed.

(** X4. Starting from a capacity that is a multiple of 1024 (as [init()]
    leaves it), every reallocation in a run of requests raises the
    capacity by at least 1024 bytes: the number of [_malloc] calls the run
    adds is at most the capacity gained divided by 1024. *)
Theorem requireTempMem_all_bounded_reallocation (sizes : list Z) (w : World) :
  _tempMemSize (temp w) mod 1024 = 0 ->
  let w' := requireTempMem_all sizes w in
  _tempMemSize (temp w') mod 1024 = 0
  /\ 1024 * Z.of_nat (malloc_count (calls (native w')))
     <= 1024 * Z.of_nat (malloc_count (calls (native w)))
        + (_tempMemSize (temp w') - _tempMemSize (temp w)).
Proof.
  revert w. induction sizes as [| s rest IH]; intros w Hm; cbv zeta.
  - simpl. split; [exact Hm | lia].
  - simpl. destruct (requireTempMem_step s w Hm) as [Hm1 Hc1].
    destruct (IH _ Hm1) as [Hm2 Hc2]. split; [exact Hm2 | lia].
Qed.

End TempMemExtras.

Lemma allocateTempMemory_views_witness :
  temp_views_consistent
    (temp (world_of (allocateTempMemory 2048 world_1kb)))
  /\ _tempMemSize (temp (world_of (allocateTempMemory 2048 world_1kb))) = 2048.
Proof.
  destruct (allocateTempMemory_views 2048 world_1kb
              (world_of (allocateTempMemory 2048 world_1kb)))
    as (Hc & Hs & _).
  - vm_compute. reflexivity.
  - lia.
  - split; assumption.
Defined.

Lemma getTempBuffer_holds_count_witness :
  exists a w',
    getTempBufferF32 300 world_1kb = Ok a w' /\ 300 <= len a.
Proof.
  destruct (getTempBufferF32 300 world_1kb) as [a w' | e w'] eqn:E.
  - exists a, w'. split; [reflexivity |].
    apply (proj2 (proj2 (proj2 (proj2
             (getTempBuffer_holds_count 300 world_1kb
                ltac:(vm_compute; repeat split; discriminate)
                ltac:(lia) ltac:(lia))))) a w' E).
  - vm_compute in E. discriminate.
Defined.

Lemma requireTempMem_repeat_witness :
  requireTempMem 1200 (world_of (requireTempMem 1500 world_1kb))
  = Ok tt (world_of (requireTempMem 1500 world_1kb)).
Proof. apply (requireTempMem_repeat 1500 1200 world_1kb). lia. Defined.

Lemma requireTempMem_all_bounded_reallocation_witness :
  1024 * Z.of_nat (malloc_count (calls (native
           (requireTempMem_all [1500; 100; 3000; 2500] world_1kb))))
  <= 1024 * Z.of_nat (malloc_count (calls (native world_1kb)))
     + (_tempMemSize (temp (requireTempMem_all [1500; 100; 3000; 2500]
                              world_1kb))
        - _tempMemSize (temp world_1kb)).
Proof.
  apply (requireTempMem_all_bounded_reallocation [1500; 100; 3000; 2500]
           world_1kb).
  reflexivity.
Defined.

(** ** Wrapper caches: outcomes, frames and invariants *)

Section WrapMore.

Context {number Engine : Type} `{NativeRuntime number Engine}.

Local Abbreviation World := (World number Engine).

Lemma _wrapObject_hit (h : Z) (o : nat) (w : World) :
  ObjectCache (wrappers w) !! h = Some o ->
  _wrapObject h w
  = Ok o (set_wrappers
            (set_objects (<[o := mkObject (HNum h)]> (objects (wrappers w)))
               (wrappers w)) w).
Proof.
  intros Hc. unfold _wrapObject, bind, gets, write_objectId,
    update_wrappers, modify, ret. simpl. rewrite Hc. reflexivity.
Qed.

Lemma _wrapObject_miss (h : Z) (w : World) :
  ObjectCache (wrappers w) !! h = None ->
  _wrapObject h w
  = Ok (length (objects (wrappers w)))
      (set_wrappers
         (mkWrappers (objects (wrappers w) ++ [mkObject (HNum h)])
            (components (wrappers w))
            (<[h := length (objects (wrappers w))]> (ObjectCache (wrappers w)))
            (ComponentCache (wrappers w))) w).
Proof.
  intros Hc. unfold _wrapObject, bind, gets, write_objectId, new_Object,
    update_wrappers, modify, ret. simpl. rewrite Hc. simpl.
  rewrite list_insert_id; [reflexivity |].
  apply list_lookup_middle. reflexivity.
Qed.

(** What one [_wrapObject] call keeps and changes. *)
Lemma _wrapObject_frame (h : Z) (o : nat) (w w1 : World) :
  ObjectCache_wf w -> ObjectCache_inj w ->
  _wrapObject h w = Ok o w1 ->
  ObjectCache_wf w1 /\ ObjectCache_inj w1
  /\ ObjectCache (wrappers w1) !! h = Some o
  /\ objects (wrappers w1) !! o = Some (mkObject (HNum h))
  /\ (forall h', h' <> h ->
        ObjectCache (wrappers w1) !! h' = ObjectCache (wrappers w) !! h')
  /\ (forall o', o' <> o ->
        objects (wrappers w1) !! o' = objects (wrappers w) !! o')
  /\ components (wrappers w1) = components (wrappers w)
  /\ ComponentCache (wrappers w1) = ComponentCache (wrappers w).
Proof.
  intros Hwf Hinj E.
  destruct (ObjectCache (wrappers w) !! h) as [o0 |] eqn:Hc.
  - rewrite (_wrapObject_hit h o0 w Hc) in E. injection E as <- <-. simpl.
    destruct (Hwf h o0 Hc) as [x Hx]. apply lookup_lt_Some in Hx.
    split; [| split; [| split; [| split; [| split; [| split; [| split]]]]]].
    + intros h' o' Hc'. simpl in *. apply lookup_lt_is_Some.
      rewrite length_insert. apply lookup_lt_is_Some. eapply Hwf. exact Hc'.
    + exact Hinj.
    + exact Hc.
    + apply list_lookup_insert_eq. exact Hx.
    + reflexivity.
    + intros o' Hne. apply list_lookup_insert_ne. congruence.
    + reflexivity.
    + reflexivity.
  - rewrite (_wrapObject_miss h w Hc) in E. injection E as <- <-. simpl.
    split; [| split; [| split; [| split; [| split; [| split; [| split]]]]]].
    + intros h' o' Hc'. simpl in *. apply lookup_lt_is_Some.
      rewrite length_app. simpl.
      destruct (decide (h = h')) as [-> | Hne].
      * rewrite lookup_insert_eq in Hc'. injection Hc' as <-. lia.
      * rewrite lookup_insert_ne in Hc' by assumption.
        destruct (Hwf h' o' Hc') as [y Hy]. apply lookup_lt_Some in Hy. lia.
    + intros h1 h2 o' H1 H2. simpl in H1, H2.
      destruct (decide (h = h1)) as [E1 | N1];
        destruct (decide (h = h2)) as [E2 | N2].
      * congruence.
      * subst h1. rewrite lookup_insert_eq in H1. injection H1 as <-.
        rewrite lookup_insert_ne in H2 by assumption.
        destruct (Hwf h2 _ H2) as [y Hy]. apply lookup_lt_Some in Hy. lia.
      * subst h2. rewrite lookup_insert_eq in H2. injection H2 as <-.
        rewrite lookup_insert_ne in H1 by assumption.
        destruct (Hwf h1 _ H1) as [y Hy]. apply lookup_lt_Some in Hy. lia.
      * rewrite lookup_insert_ne in H1, H2 by assumption.
        eapply Hinj; eassumption.
    + apply lookup_insert_eq.
    + apply list_lookup_middle. reflexivity.
    + intros h' Hne. apply lookup_insert_ne. congruence.
    + intros o' Hne.
      destruct (Nat.lt_ge_cases o' (length (objects (wrappers w)))) as [L | G].
      * apply lookup_app_l. exact L.
      * rewrite !lookup_ge_None_2; [reflexivity | exact G |].
        rewrite length_app. simpl. lia.
    + reflexivity.
    + reflexivity.
Qed.

(** X5. In a world whose object cache is well formed and maps distinct
    handles to distinct instances, wrapping two different handles gives two
    different instances, and the second call neither returns nor touches
    the first wrapper: [h] is still cached at [o], and [o] still holds
    [h]. Both invariants hold again afterwards. *)
Theorem _wrapObject_distinct_handles (h h' : Z) (o o' : nat)
    (w w1 w2 : World) :
  ObjectCache_wf w -> ObjectCache_inj w -> h <> h' ->
  _wrapObject h w = Ok o w1 -> _wrapObject h' w1 = Ok o' w2 ->
  o <> o'
  /\ ObjectCache (wrappers w2) !! h = Some o
  /\ ObjectCache (wrappers w2) !! h' = Some o'
  /\ objects (wrappers w2) !! o = Some (mkObject (HNum h))
  /\ objects (wrappers w2) !! o' = Some (mkObject (HNum h'))
  /\ ObjectCache_wf w2 /\ ObjectCache_inj w2.
Proof.
  intros Hwf Hinj Hne E1 E2.
  destruct (_wrapObject_frame h o w w1 Hwf Hinj E1)
    as (Hwf1 & Hinj1 & Hc1 & Ho1 & _).
  destruct (_wrapObject_frame h' o' w1 w2 Hwf1 Hinj1 E2)
    as (Hwf2 & Hinj2 & Hc2 & Ho2 & Fc & Fo & _).
  assert (ObjectCache (wrappers w2) !! h = Some o) as Hc.
  { rewrite Fc by assumption. exact Hc1. }
  assert (o <> o') as Hoo.
  { intros ->. apply Hne. eapply Hinj2; eassumption. }
  split; [exact Hoo |]. split; [exact Hc |]. split; [exact Hc2 |].
  split; [rewrite Fo by assumption; exact Ho1 |].
  split; [exact Ho2 |]. split; assumption.
Qed.

End WrapMore.

Lemma _wrapObject_distinct_handles_witness :
  exists o o' w1 w2,
    _wrapObject 7 initial_world = Ok o w1
    /\ _wrapObject 9 w1 = Ok o' w2
    /\ o <> o'
    /\ objects (wrappers w2) !! o = Some (mkObject (HNum 7))
    /\ objects (wrappers w2) !! o' = Some (mkObject (HNum 9)).
Proof.
  assert (ObjectCache_wf initial_world) as Hwf.
  { intros h o Hc. simpl in Hc. rewrite lookup_empty in Hc. discriminate. }
  assert (ObjectCache_inj initial_world) as Hinj.
  { intros h h' o Hc. simpl in Hc. rewrite lookup_empty in Hc. discriminate. }
  destruct (_wrapObject 7 initial_world) as [o w1 | e w1] eqn:E1;
    [| vm_compute in E1; discriminate].
  pose proof E1 as E1'. vm_compute in E1'. injection E1' as <- <-.
  match type of E1 with _ = Ok _ ?W1 =>
    destruct (_wrapObject 9 W1) as [o' w2 | e w2] eqn:E2;
      [| vm_compute in E2; discriminate]
  end.
  destruct (_wrapObject_distinct_handles 7 9 _ o' initial_world _ w2
              Hwf Hinj ltac:(lia) E1 E2)
    as (Hne & _ & _ & Ho & Ho' & _).
  eexists _, o', _, w2. split; [reflexivity |]. split; [exact E2 |].
  split; [exact Hne |]. split; assumption.
Defined.

Section WrapComponentMore.

Context {number Engine : Type} `{NativeRuntime number Engine}.

Local Abbreviation World := (World number Engine).

Lemma construct_and_cache (t : string) (m c : Z) (w : World) :
  bind
    (if String.eqb t "collision" then
       new_Component CollisionComponent (HNum m) (HNum c)
     else if String.eqb t "text" then
       new_Component TextComponent (HNum m) (HNum c)
     else if String.eqb t "view" then
       new_Component ViewComponent (HNum m) (HNum c)
     else if String.eqb t "mesh" then
       new_Component MeshComponent (HNum m) (HNum c)
     else if String.eqb t "input" then
       new_Component InputComponent (HNum m) (HNum c)
     else if String.eqb t "light" then
       new_Component LightComponent (HNum m) (HNum c)
     else if String.eqb t "animation" then
       new_Component AnimationComponent (HNum m) (HNum c)
     else if String.eqb t "physx" then
       new_Component PhysXComponent (HNum m) (HNum c)
     else new_registered t)
    (fun component =>
       bind (write_manager_id component (HNum m) (HNum c)) (fun _ =>
       bind (update_wrappers (fun x =>
               set_ComponentCache
                 (<[m := <[c := component]>
                           (default ∅ (ComponentCache x !! m))]>
                    (ComponentCache x)) x)) (fun _ =>
       ret (Some component)))) w
  = match class_for w t with
    | Some C => Ok (Some (length (components (wrappers w))))
                  (with_component C m c w)
    | None => Threw (TypeError "constructor is not a constructor") w
    end.
Proof.
  assert (forall C mi ii,
    bind (new_Component C mi ii)
      (fun component =>
         bind (write_manager_id component (HNum m) (HNum c)) (fun _ =>
         bind (update_wrappers (fun x =>
                 set_ComponentCache
                   (<[m := <[c := component]>
                             (default ∅ (ComponentCache x !! m))]>
                      (ComponentCache x)) x)) (fun _ =>
         ret (Some component)))) w
    = Ok (Some (length (components (wrappers w)))) (with_component C m c w))
    as Finish.
  { intros C mi ii.
    unfold new_Component, write_manager_id, update_wrappers, bind, gets,
      modify, ret, with_component. simpl.
    rewrite alter_app_r_alt by lia. rewrite Nat.sub_diag. reflexivity. }
  unfold class_for.
  destruct (String.eqb t "collision"); [apply Finish |].
  destruct (String.eqb t "text"); [apply Finish |].
  destruct (String.eqb t "view"); [apply Finish |].
  destruct (String.eqb t "mesh"); [apply Finish |].
  destruct (String.eqb t "input"); [apply Finish |].
  destruct (String.eqb t "light"); [apply Finish |].
  destruct (String.eqb t "animation"); [apply Finish |].
  destruct (String.eqb t "physx"); [apply Finish |].
  unfold new_registered.
  destruct (_componentTypeIndices (_WL w) !! t) as [i |] eqn:Ei.
  - simpl. destruct (_componentTypes (_WL w) !! i) as [name |] eqn:En.
    + simpl. rewrite <- (Finish (CustomComponent name) (HNum (-1)) (HNum (-1))).
      unfold bind at 1 2 3. unfold gets. rewrite Ei. simpl. rewrite En.
      reflexivity.
    + simpl. unfold bind, gets, throw. rewrite Ei. simpl. rewrite En.
      reflexivity.
  - simpl. unfold bind, gets, throw. rewrite Ei. reflexivity.
Qed.

(** Every outcome of [_wrapComponent] for a non-negative id. *)
Lemma _wrapComponent_outcome (t : string) (m c : Z) (w : World) :
  0 <= c ->
  _wrapComponent t m c w
  = match ComponentCache (wrappers w) !! m with
    | Some inner =>
        match inner !! c with
        | Some r => Ok (Some r) w
        | None =>
            match class_for w t with
            | Some C => Ok (Some (length (components (wrappers w))))
                          (with_component C m c w)
            | None => Threw (TypeError "constructor is not a constructor") w
            end
        end
    | None =>
        let w0 := set_wrappers
                    (set_ComponentCache
                       (<[m := ∅]> (ComponentCache (wrappers w)))
                       (wrappers w)) w in
        match class_for w t with
        | Some C => Ok (Some (length (components (wrappers w))))
                      (with_component C m c w0)
        | None => Threw (TypeError "constructor is not a constructor") w0
        end
    end.
Proof.
  intros Hc. unfold _wrapComponent.
  destruct (Z.ltb_spec c 0); [lia |].
  unfold bind at 1. unfold gets at 1.
  destruct (ComponentCache (wrappers w) !! m) as [inner |] eqn:Hm.
  - unfold bind at 1. unfold ret at 1. cbv beta iota.
    destruct (inner !! c) as [r |] eqn:Hi; [reflexivity |].
    apply construct_and_cache.
  - unfold bind at 1. unfold bind at 1. unfold update_wrappers at 1.
    unfold modify at 1. cbv beta iota. unfold ret at 1. cbv beta iota.
    rewrite lookup_empty. rewrite construct_and_cache. reflexivity.
Qed.

Lemma with_component_wraps (C : ComponentClass) (m c : Z) (w : World) :
  wraps_component m c (length (components (wrappers w)))
    (with_component C m c w).
Proof.
  unfold wraps_component, with_component. simpl.
  eexists. split; apply lookup_insert_eq.
Qed.

Lemma _wrapComponent_returned_is_cached (t : string) (m c : Z) (r : nat)
    (w w1 : World) :
  0 <= c -> _wrapComponent t m c w = Ok (Some r) w1 ->
  wraps_component m c r w1.
Proof.
  intros Hc E. rewrite _wrapComponent_outcome in E by assumption.
  destruct (ComponentCache (wrappers w) !! m) as [inner |] eqn:Hm.
  - destruct (inner !! c) as [r0 |] eqn:Hi.
    + injection E as <- <-. exists inner. split; assumption.
    + destruct (class_for w t); [| discriminate].
      injection E as <- <-. apply with_component_wraps.
  - cbv zeta in E. destruct (class_for w t) as [C |]; [| discriminate].
    injection E as <- <-.
    exact (with_component_wraps C m c
             (set_wrappers
                (set_ComponentCache (<[m := ∅]> (ComponentCache (wrappers w)))
                   (wrappers w)) w)).
Qed.

(** X6. Once [(m, c)] has been wrapped, the type name no longer matters:
    a later [_wrapComponent(t', m, c)] with any [t'], also one that names
    a different class or one that could not be constructed at all, returns
    the instance made by the first call and changes nothing. *)
Theorem _wrapComponent_type_fixed_by_first_wrap (t t' : string) (m c : Z)
    (r : nat) (w w1 : World) :
  0 <= c -> _wrapComponent t m c w = Ok (Some r) w1 ->
  _wrapComponent t' m c w1 = Ok (Some r) w1.
Proof.
  intros Hc E. apply _wrapComponent_wrapped; [exact Hc |].
  eapply _wrapComponent_returned_is_cached; eassumption.
Qed.

(** X7. On a cache miss for [(m, c)], [_wrapComponent] either constructs
    or throws, as the type name decides. When the name resolves to a class
    the call appends one new instance of that class to the store, with
    [_manager = m] and [_id = c] (also for a registered class, whose
    constructor ran with the defaults -1), caches it under [(m, c)] and
    leaves every existing instance and the object cache as they were.
    When it does not resolve the call throws a TypeError and no instance
    is created. *)
Theorem _wrapComponent_miss_constructs (t : string) (m c : Z) (w : World) :
  0 <= c ->
  (forall inner, ComponentCache (wrappers w) !! m = Some inner ->
                 inner !! c = None) ->
  match class_for w t with
  | Some C =>
      exists w1,
        _wrapComponent t m c w
        = Ok (Some (length (components (wrappers w)))) w1
        /\ components (wrappers w1)
           = components (wrappers w)
             ++ [mkComponent C (HNum m) (HNum c) None None]
        /\ wraps_component m c (length (components (wrappers w))) w1
        /\ objects (wrappers w1) = objects (wrappers w)
        /\ ObjectCache (wrappers w1) = ObjectCache (wrappers w)
        /\ (forall m', m' <> m ->
              ComponentCache (wrappers w1) !! m'
              = ComponentCache (wrappers w) !! m')
  | None =>
      exists w1,
        _wrapComponent t m c w
        = Threw (TypeError "constructor is not a constructor") w1
        /\ components (wrappers w1) = components (wrappers w)
        /\ objects (wrappers w1) = objects (wrappers w)
        /\ (forall r, ~ wraps_component m c r w1)
  end.
Proof.
  intros Hc Hmiss. rewrite _wrapComponent_outcome by assumption.
  destruct (ComponentCache (wrappers w) !! m) as [inner |] eqn:Hm.
  - rewrite (Hmiss inner eq_refl).
    destruct (class_for w t) as [C |].
    + eexists. split; [reflexivity |]. simpl.
      split; [reflexivity |]. split; [apply with_component_wraps |].
      split; [reflexivity |]. split; [reflexivity |].
      intros m' Hne. apply lookup_insert_ne. congruence.
    + exists w. split; [reflexivity |]. split; [reflexivity |].
      split; [reflexivity |].
      intros r (inner' & Hm' & Hi'). rewrite Hm in Hm'. injection Hm' as <-.
      rewrite (Hmiss inner eq_refl) in Hi'. discriminate.
  - cbv zeta. destruct (class_for w t) as [C |].
    + eexists. split; [reflexivity |]. simpl.
      split; [reflexivity |]. split.
      { exact (with_component_wraps C m c
                 (set_wrappers
                    (set_ComponentCache
                       (<[m := ∅]> (ComponentCache (wrappers w)))
                       (wrappers w)) w)). }
      split; [reflexivity |]. split; [reflexivity |].
      intros m' Hne. rewrite !lookup_insert_ne by congruence. reflexivity.
    + eexists. split; [reflexivity |]. simpl. split; [reflexivity |].
      split; [reflexivity |].
      intros r (inner' & Hm' & Hi'). simpl in Hm'.
      rewrite lookup_insert_eq in Hm'. injection Hm' as <-.
      rewrite lookup_empty in Hi'. discriminate.
Qed.

End WrapComponentMore.

Lemma _wrapComponent_type_fixed_by_first_wrap_witness :
  _wrapComponent "no-such-type" 3 0 wrapped_world = Ok (Some 0%nat) wrapped_world.
Proof.
  apply (_wrapComponent_type_fixed_by_first_wrap "mesh" "no-such-type" 3 0
           0%nat (world_of (_wrapObject 7 initial_world)) wrapped_world).
  - lia.
  - vm_compute. reflexivity.
Defined.

Lemma _wrapComponent_miss_constructs_witness :
  exists w1,
    _wrapComponent "light" 4 2 wrapped_world = Ok (Some 1%nat) w1
    /\ components (wrappers w1)
       = [mkComponent MeshComponent (HNum 3) (HNum 0) None None;
          mkComponent LightComponent (HNum 4) (HNum 2) None None].
Proof.
  destruct (_wrapComponent_miss_constructs "light" 4 2 wrapped_world)
    as (w1 & E & Hc & _).
  - lia.
  - intros inner Hm. vm_compute in Hm. discriminate.
  - exists w1. split; [exact E | exact Hc].
Defined.

Section DestroyMore.

Context {number Engine : Type} `{NativeRuntime number Engine}.

Local Abbreviation World := (World number Engine).

Lemma Component_destroy_world (this : nat) (c : Component) (w : World) :
  components (wrappers w) !! this = Some c ->
  exists w',
    Component.destroy this w = Ok tt w'
    /\ components (wrappers w')
       = <[this := mkComponent (class c) HUndefined HUndefined
                     (_object c) (_type c)]> (components (wrappers w))
    /\ objects (wrappers w') = objects (wrappers w)
    /\ ObjectCache (wrappers w') = ObjectCache (wrappers w)
    /\ ComponentCache (wrappers w') = ComponentCache (wrappers w).
Proof.
  intros Hc.
  unfold Component.destroy, bind, gets, call, write_manager_id,
    update_wrappers, modify. simpl. rewrite Hc.
  destruct (native_call _ _ _) as [[r e] h]. simpl.
  eexists. split; [reflexivity |]. simpl.
  split; [| repeat split].
  apply list_eq. intros i. destruct (decide (i = this)) as [-> | Hne].
  - rewrite !list_lookup_alter_eq, Hc. simpl.
    rewrite list_lookup_insert_eq; [reflexivity |].
    eapply lookup_lt_Some; eassumption.
  - rewrite !list_lookup_alter_ne, list_lookup_insert_ne by congruence.
    reflexivity.
Qed.

Lemma Object_destroy_world (this : nat) (o : Object) (w : World) :
  objects (wrappers w) !! this = Some o ->
  exists w',
    Object.destroy this w = Ok tt w'
    /\ objects (wrappers w') = <[this := mkObject HNull]> (objects (wrappers w))
    /\ components (wrappers w') = components (wrappers w)
    /\ ObjectCache (wrappers w') = ObjectCache (wrappers w)
    /\ ComponentCache (wrappers w') = ComponentCache (wrappers w).
Proof.
  intros Ho.
  unfold Object.destroy, bind, gets, call, write_objectId,
    update_wrappers, modify. simpl. rewrite Ho.
  destruct (native_call _ _ _) as [[r e] h]. simpl.
  eexists. split; [reflexivity |]. repeat split.
Qed.

(** X8. [destroy()] does not evict the wrapper from its cache. A destroyed
    component is still what [_wrapComponent(t, m, c)] returns for its old
    [(m, c)], for every [t], and the call does not restore the fields:
    [_manager] and [_id] stay [undefined]. A destroyed object is still what
    [_wrapObject(h)] returns, but that call writes [h] back into
    [objectId]. *)
Theorem destroyed_wrapper_stays_cached (w : World) :
  (forall m c r comp,
     0 <= c -> wraps_component m c r w ->
     components (wrappers w) !! r = Some comp ->
     exists w1,
       Component.destroy r w = Ok tt w1
       /\ forall t,
            _wrapComponent t m c w1 = Ok (Some r) w1
            /\ components (wrappers w1) !! r
               = Some (mkComponent (class comp) HUndefined HUndefined
                         (_object comp) (_type comp)))
  /\ (forall h o obj,
        ObjectCache (wrappers w) !! h = Some o ->
        objects (wrappers w) !! o = Some obj ->
        exists w1 w2,
          Object.destroy o w = Ok tt w1
          /\ objects (wrappers w1) !! o = Some (mkObject HNull)
          /\ _wrapObject h w1 = Ok o w2
          /\ objects (wrappers w2) !! o = Some (mkObject (HNum h))).
Proof.
  split.
  - intros m c r comp Hc (inner & Hm & Hi) Hr.
    destruct (Component_destroy_world r comp w Hr)
      as (w1 & E & Hcomps & _ & _ & Hcache).
    exists w1. split; [exact E |]. intros t. split.
    + apply _wrapComponent_wrapped; [exact Hc |].
      exists inner. rewrite Hcache. split; assumption.
    + rewrite Hcomps. apply list_lookup_insert_eq.
      eapply lookup_lt_Some; eassumption.
  - intros h o obj Hc Ho.
    destruct (Object_destroy_world o obj w Ho)
      as (w1 & E & Hobjs & _ & Hcache & _).
    assert (o < length (objects (wrappers w)))%nat as Hlt
      by (eapply lookup_lt_Some; eassumption).
    eexists w1, _. split; [exact E |]. split.
    { rewrite Hobjs. apply list_lookup_insert_eq. exact Hlt. }
    split.
    { apply _wrapObject_hit. rewrite Hcache. exact Hc. }
    simpl. apply list_lookup_insert_eq. rewrite Hobjs, length_insert.
    exact Hlt.
Qed.

Lemma ObjectCache_wf_transfer (w w' : World) :
  ObjectCache (wrappers w') = ObjectCache (wrappers w) ->
  (length (objects (wrappers w)) <= length (objects (wrappers w')))%nat ->
  ObjectCache_wf w -> ObjectCache_wf w'.
Proof.
  intros Hc Hl Hwf h o Ho. rewrite Hc in Ho.
  destruct (Hwf h o Ho) as [x Hx]. apply lookup_lt_Some in Hx.
  apply lookup_lt_is_Some. lia.
Qed.

Lemma ComponentCache_wf_transfer (w w' : World) :
  ComponentCache (wrappers w') = ComponentCache (wrappers w) ->
  (length (components (wrappers w)) <= length (components (wrappers w')))%nat ->
  ComponentCache_wf w -> ComponentCache_wf w'.
Proof.
  intros Hc Hl Hwf m inner c r Hm Hi. rewrite Hc in Hm.
  destruct (Hwf m inner c r Hm Hi) as [x Hx]. apply lookup_lt_Some in Hx.
  apply lookup_lt_is_Some. lia.
Qed.

Lemma with_component_wf (C : ComponentClass) (m c : Z) (w : World) :
  ObjectCache_wf w -> ComponentCache_wf w ->
  ObjectCache_wf (with_component C m c w)
  /\ ComponentCache_wf (with_component C m c w).
Proof.
  intros Ho Hc. split.
  - apply (ObjectCache_wf_transfer w); [reflexivity | reflexivity | exact Ho].
  - intros m' inner c' r Hm Hi. unfold with_component in *. simpl in *.
    apply lookup_lt_is_Some. rewrite length_app. simpl.
    destruct (decide (m = m')) as [<- | Hne].
    + rewrite lookup_insert_eq in Hm. injection Hm as <-.
      destruct (decide (c = c')) as [<- | Hnc].
      * rewrite lookup_insert_eq in Hi. injection Hi as <-. lia.
      * rewrite lookup_insert_ne in Hi by assumption.
        destruct (ComponentCache (wrappers w) !! m) as [old |] eqn:Hold.
        -- simpl in Hi. destruct (Hc m old c' r Hold Hi) as [x Hx].
           apply lookup_lt_Some in Hx. lia.
        -- simpl in Hi. rewrite lookup_empty in Hi. discriminate.
    + rewrite lookup_insert_ne in Hm by assumption.
      destruct (Hc m' inner c' r Hm Hi) as [x Hx].
      apply lookup_lt_Some in Hx. lia.
Qed.

Lemma empty_inner_wf (m : Z) (w : World) :
  ObjectCache_wf w -> ComponentCache_wf w ->
  let w0 := set_wrappers
              (set_ComponentCache (<[m := ∅]> (ComponentCache (wrappers w)))
                 (wrappers w)) w in
  ObjectCache_wf w0 /\ ComponentCache_wf w0.
Proof.
  intros Ho Hc. cbv zeta. split.
  - apply (ObjectCache_wf_transfer w); [reflexivity | reflexivity | exact Ho].
  - intros m' inner c' r Hm Hi. simpl in *.
    destruct (decide (m = m')) as [<- | Hne].
    + rewrite lookup_insert_eq in Hm. injection Hm as <-.
      rewrite lookup_empty in Hi. discriminate.
    + rewrite lookup_insert_ne in Hm by assumption.
      exact (Hc m' inner c' r Hm Hi).
Qed.

(** X9. The caches never hold a dangling reference: if every reference in
    the object cache and in the component cache is an instance of its
    store, the same is true after [_wrapObject], after [_wrapComponent]
    (whether it returns an instance, returns [null], or throws), and
    after [destroy()] on a component or an object. *)
Theorem caches_stay_well_formed (w : World) :
  ObjectCache_wf w -> ComponentCache_wf w ->
  let ok (w' : World) := ObjectCache_wf w' /\ ComponentCache_wf w' in
  (forall h, ok (world_of (_wrapObject h w)))
  /\ (forall t m c, ok (world_of (_wrapComponent t m c w)))
  /\ (forall this, ok (world_of (Component.destroy this w)))
  /\ (forall this, ok (world_of (Object.destroy this w))).
Proof.
  intros Ho Hc. cbv zeta. split; [| split; [| split]].
  - intros h. destruct (ObjectCache (wrappers w) !! h) as [o |] eqn:E.
    + rewrite (_wrapObject_hit h o w E). simpl. split.
      * apply (ObjectCache_wf_transfer w); [reflexivity | | exact Ho].
        simpl. rewrite length_insert. lia.
      * apply (ComponentCache_wf_transfer w); [reflexivity | | exact Hc].
        reflexivity.
    + destruct (_wrapObject_wraps h w Ho) as (o & w1 & E1 & _ & Hwf1).
      rewrite E1. simpl. split; [exact Hwf1 |].
      rewrite (_wrapObject_miss h w E) in E1. injection E1 as _ <-.
      apply (ComponentCache_wf_transfer w); [reflexivity | | exact Hc].
      reflexivity.
  - intros t m c. destruct (Z.lt_ge_cases c 0) as [Hneg | Hpos].
    + unfold _wrapComponent. destruct (Z.ltb_spec c 0); [| lia].
      simpl. split; assumption.
    + rewrite _wrapComponent_outcome by lia.
      destruct (ComponentCache (wrappers w) !! m) as [inner |] eqn:Hm.
      * destruct (inner !! c) as [r |]; [split; assumption |].
        destruct (class_for w t) as [C |]; simpl.
        -- apply with_component_wf; assumption.
        -- split; assumption.
      * cbv zeta. destruct (empty_inner_wf m w Ho Hc) as [Ho0 Hc0].
        destruct (class_for w t) as [C |]; simpl.
        -- apply with_component_wf; assumption.
        -- split; assumption.
  - intros this.
    destruct (components (wrappers w) !! this) as [c |] eqn:E.
    + destruct (Component_destroy_world this c w E)
        as (w' & -> & Hcomps & Hobjs & Hoc & Hcc). simpl. split.
      * apply (ObjectCache_wf_transfer w); [exact Hoc | | exact Ho].
        rewrite Hobjs. lia.
      * apply (ComponentCache_wf_transfer w); [exact Hcc | | exact Hc].
        rewrite Hcomps, length_insert. lia.
    + unfold Component.destroy, bind, gets, throw. rewrite E. simpl.
      split; assumption.
  - intros this.
    destruct (objects (wrappers w) !! this) as [o |] eqn:E.
    + destruct (Object_destroy_world this o w E)
        as (w' & -> & Hobjs & Hcomps & Hoc & Hcc). simpl. split.
      * apply (ObjectCache_wf_transfer w); [exact Hoc | | exact Ho].
        rewrite Hobjs, length_insert. lia.
      * apply (ComponentCache_wf_transfer w); [exact Hcc | | exact Hc].
        rewrite Hcomps. lia.
    + unfold Object.destroy, bind, gets, throw. rewrite E. simpl.
      split; assumption.
Qed.

End DestroyMore.

Lemma destroyed_wrapper_stays_cached_witness :
  exists w1,
    Component.destroy 0 wrapped_world = Ok tt w1
    /\ _wrapComponent "mesh" 3 0 w1 = Ok (Some 0%nat) w1
    /\ components (wrappers w1) !! 0%nat
       = Some (mkComponent MeshComponent HUndefined HUndefined None None).
Proof.
  destruct (proj1 (destroyed_wrapper_stays_cached wrapped_world) 3 0 0%nat
              (mkComponent MeshComponent (HNum 3) (HNum 0) None None))
    as (w1 & E & Ht).
  - lia.
  - eexists. split; vm_compute; reflexivity.
  - reflexivity.
  - exists w1. split; [exact E |]. exact (Ht "mesh").
Defined.

Lemma caches_stay_well_formed_witness :
  ObjectCache_wf (world_of (_wrapObject 7 initial_world))
  /\ ComponentCache_wf (world_of (_wrapObject 7 initial_world)).
Proof.
  apply (proj1 (caches_stay_well_formed initial_world
                  ltac:(intros h o Hc; simpl in Hc; rewrite lookup_empty in Hc;
                        discriminate)
                  ltac:(intros m i c r Hm; simpl in Hm;
                        rewrite lookup_empty in Hm; discriminate)) 7).
Defined.

(** ** Mesh attribute accessor: what crosses the boundary *)

Section AccessorMore.

Context {number Engine : Type} `{JSNumber number} `{NativeRuntime number Engine}.

Local Abbreviation World := (World number Engine).

Import MeshAttributeAccessor.

Lemma requireTempMem_returns_reaches (s : Z) (w w' : World) :
  requireTempMem s w = Ok tt w' -> s <= _tempMemSize (temp w').
Proof.
  intros E. pose proof (requireTempMem_reaches s w) as R.
  rewrite E in R. exact R.
Qed.

Lemma _tempBufferGetter_returns (this : t) (n : Z) (dest : TypedArray)
    (w w' : World) :
  0 <= n -> _tempBufferGetter this n w = Ok dest w' ->
  BYTES_PER_ELEMENT (_bufferType this) * n <= _tempMemSize (temp w')
  /\ (temp_views_consistent (temp w) -> n * 4 <= 2 ^ 31 - 1024 ->
      byteOffset dest = _tempMem (temp w') /\ n <= len dest
      /\ temp_views_consistent (temp w')).
Proof.
  intros Hn E.
  assert (exists s view,
            bind (requireTempMem s) (fun _ => gets (fun w => view (temp w))) w
            = Ok dest w'
            /\ BYTES_PER_ELEMENT (_bufferType this) * n <= s
            /\ ((s = n * 2 /\ view = _tempMemUint16)
                \/ (s = n * 4 /\ view = _tempMemFloat))) as (s & view & E' & Hs & Hv).
  { unfold _tempBufferGetter, getTempBufferU16, getTempBufferF32 in E.
    destruct (_bufferType this); eexists _, _;
      (split; [exact E |]); simpl; (split; [lia |]); tauto. }
  unfold bind in E'.
  destruct (requireTempMem s w) as [[] w1 | e w1] eqn:R; [| discriminate].
  unfold gets in E'. injection E' as <- <-.
  pose proof (requireTempMem_returns_reaches s w w1 R) as Hr.
  split; [lia |]. intros Hc Hmax.
  destruct (requireTempMem_consistent s w w1 Hc ltac:(lia) R) as [Hc1 _].
  pose proof Hc1 as (Hrange & Hf & _ & _ & H16 & _).
  destruct Hv as [[-> ->] | [-> ->]].
  - rewrite H16. simpl. rewrite shr_small by lia. change (2 ^ 1) with 2.
    split; [reflexivity |]. split; [| exact Hc1].
    apply Z.div_le_lower_bound; lia.
  - rewrite Hf. simpl. rewrite shr_small by lia. change (2 ^ 2) with 4.
    split; [reflexivity |]. split; [| exact Hc1].
    apply Z.div_le_lower_bound; lia.
Qed.

(** X10. When [get(index, out)] returns, the array it returns has the
    length of [out], and the one native call it made asked the runtime to
    write [out.length * BYTES_PER_ELEMENT] bytes, which is no more than the
    capacity of the temporary memory at that point. With consistent views
    the destination handed over is the start of the temporary block. *)
Theorem accessor_get_within_capacity (this : t) (index : Z)
    (out out' : list (Value number)) (w w' : World) :
  get this index out w = Ok out' w' ->
  let n := Z.of_nat (Datatypes.length out) in
  let bytes := BYTES_PER_ELEMENT (_bufferType this) * n in
  Datatypes.length out' = Datatypes.length out
  /\ bytes <= _tempMemSize (temp w')
  /\ exists dest,
       last (calls (native w'))
       = Some (_wl_mesh_get_attribute_values
                 (_attribute this) (_formatSize this)
                 (_offset this + index * _stride this) (_stride this)
                 (_componentCount this * BYTES_PER_ELEMENT (_bufferType this))
                 dest bytes)
       /\ (temp_views_consistent (temp w) -> n * 4 <= 2 ^ 31 - 1024 ->
           dest = _tempMem (temp w')).
Proof.
  intros E. cbv zeta. unfold get in E.
  destruct (JS.neq_zero _); [discriminate |].
  unfold bind at 1 in E.
  destruct (_tempBufferGetter this _ w) as [dest w1 | e w1] eqn:G;
    [| discriminate].
  apply _tempBufferGetter_returns in G; [| lia]. destruct G as [Hcap Hcons].
  unfold bind, call, gets, ret in E.
  destruct (native_call _ _ _) as [[r e] h]. injection E as <- <-. simpl.
  split; [rewrite length_map, length_seqZ; lia |].
  split; [exact Hcap |].
  exists (byteOffset dest). split; [apply last_snoc |].
  intros Hc Hmax. apply Hcons; assumption.
Qed.

(** X11. [set(i, v)] with a view that is already on the heap copies
    nothing: the temporary memory is not touched or grown, the runtime is
    handed the heap as it was, and the source passed is the view's own
    byte offset. With an array that owns its elements the values are
    staged first, in the buffer the accessor's temporary buffer getter
    returns for their count: [set] returns only if they fit that buffer,
    the runtime is handed the heap with the values written to it and the
    buffer's byte offset as source, and the byte count passed is within
    the capacity. When the buffer is shorter than the array, [set] throws
    a RangeError after the buffer request and makes no native set call.
    When it returns, [set] returns the accessor itself. *)
Theorem accessor_set_staging (this : t) (i : Z) (v : NumberArray number)
    (w : World) :
  let bytesPerElt := BYTES_PER_ELEMENT (_bufferType this) in
  let c (src : Z) :=
    _wl_mesh_set_attribute_values
      (_attribute this) (_componentCount this * bytesPerElt)
      src (bytesPerElt * array_length v) (_formatSize this)
      (_offset this + i * _stride this) (_stride this) in
  (forall r w',
     set this i v w = Ok r w' ->
     r = this
     /\ match v with
        | HeapView a =>
            temp w' = temp w
            /\ calls (native w') = calls (native w) ++ [c (byteOffset a)]
            /\ (engine (native w'), HEAP (native w'))
               = ((native_call (c (byteOffset a))
                     (engine (native w)) (HEAP (native w))).1.2,
                  (native_call (c (byteOffset a))
                     (engine (native w)) (HEAP (native w))).2)
        | OwnArray xs =>
            exists dest w1,
              _tempBufferGetter this (array_length v) w = Ok dest w1
              /\ array_length v <= len dest
              /\ bytesPerElt * array_length v <= _tempMemSize (temp w')
              /\ temp w' = temp w1
              /\ calls (native w') = calls (native w1) ++ [c (byteOffset dest)]
              /\ (engine (native w'), HEAP (native w'))
                 = ((native_call (c (byteOffset dest)) (engine (native w1))
                       (write_all (HEAP (native w1)) dest 0 xs)).1.2,
                    (native_call (c (byteOffset dest)) (engine (native w1))
                       (write_all (HEAP (native w1)) dest 0 xs)).2)
        end)
  /\ (forall xs dest w1,
        v = OwnArray xs ->
        JS.neq_zero (JS.rem (array_length v) (_componentCount this)) = false ->
        _tempBufferGetter this (array_length v) w = Ok dest w1 ->
        len dest < array_length v ->
        set this i v w = Threw (RangeError "offset is out of bounds") w1).
Proof.
  cbv zeta. split.
  - intros r w' E. unfold set in E.
    destruct (JS.neq_zero _); [discriminate |].
    destruct v as [xs | a].
    + unfold bind at 1 2 in E.
      destruct (_tempBufferGetter this _ w) as [dest w1 | e w1] eqn:G;
        [| discriminate].
      pose proof G as G'.
      apply _tempBufferGetter_returns in G'; [| simpl; lia].
      destruct G' as [Hcap _].
      unfold bind at 1 in E. unfold TypedArray_set in E.
      destruct (Z.ltb_spec (len dest) (Z.of_nat (Datatypes.length xs)));
        [discriminate |].
      unfold modify, bind, call, ret in E. simpl in E.
      destruct (native_call _ _ _) as [[r0 e] h] eqn:N.
      injection E as <- <-. simpl.
      split; [reflexivity |]. exists dest, w1.
      split; [reflexivity |]. split; [lia |]. split; [exact Hcap |].
      split; [reflexivity |]. split; [reflexivity |].
      rewrite N. reflexivity.
    + unfold bind, call, ret in E. simpl in E.
      destruct (native_call _ _ _) as [[r0 e] h] eqn:N.
      injection E as <- <-. simpl.
      split; [reflexivity |]. split; [reflexivity |].
      split; [reflexivity |].
      reflexivity.
  - intros xs dest w1 -> Hm G Hl. unfold set. rewrite Hm.
    unfold bind at 1 2. rewrite G.
    unfold bind at 1. unfold TypedArray_set. simpl in Hl.
    destruct (Z.ltb_spec (len dest) (Z.of_nat (Datatypes.length xs)));
      [reflexivity | lia].
Qed.

End AccessorMore.

Lemma accessor_get_within_capacity_witness :
  exists out' w',
    MeshAttributeAccessor.get position_accessor 1
      [VNumber 0; VNumber 0; VNumber 0; VNumber 0; VNumber 0; VNumber 0]
      world_1kb = Ok out' w'
    /\ length out' = 6%nat
    /\ 24 <= _tempMemSize (temp w').
Proof.
  destruct (MeshAttributeAccessor.get position_accessor 1
              [VNumber 0; VNumber 0; VNumber 0; VNumber 0; VNumber 0; VNumber 0]
              world_1kb) as [out' w' | e w'] eqn:E;
    [| vm_compute in E; discriminate].
  destruct (accessor_get_within_capacity _ _ _ _ _ _ E) as (Hl & Hc & _).
  exists out', w'. split; [reflexivity |]. split; [exact Hl | exact Hc].
Defined.

Lemma accessor_set_staging_witness :
  exists w',
    MeshAttributeAccessor.set position_accessor 2
      (HeapView (mkTypedArray Float32 2048 3)) world_1kb
    = Ok position_accessor w'
    /\ temp w' = temp world_1kb
    /\ calls (native w')
       = [_wl_mesh_set_attribute_values 0 12 2048 12 12 24 12].
Proof.
  destruct (MeshAttributeAccessor.set position_accessor 2
              (HeapView (mkTypedArray Float32 2048 3)) world_1kb)
    as [r w' | e w'] eqn:E; [| vm_compute in E; discriminate].
  destruct (proj1 (accessor_set_staging _ _ _ _) _ _ E) as (-> & Ht & Hc & _).
  exists w'. split; [reflexivity |]. split; [exact Ht | exact Hc].
Defined.

Section AccessorShape.

Context {number Engine : Type} `{JSNumber number} `{NativeRuntime number Engine}.

Local Abbreviation World := (World number Engine).

Import MeshAttributeAccessor.

Lemma get_zero_components (this : t) (index : Z) (out : list (Value number))
    (w : World) :
  _componentCount this = 0 ->
  get this index out w
  = Threw (Error (not_a_multiple (Z.of_nat (Datatypes.length out)) 0)) w.
Proof. intros E. unfold get. rewrite E. reflexivity. Qed.

(** X12. The constructor accepts exactly the attribute types 0 to 8 and
    throws "Invalid attribute accessor type" for any other number; the
    buffer type is Uint16 for the two joint id attributes (5 and 7) and
    Float32 otherwise. The accessor it returns has component count 0, and
    since [n % 0] is NaN every [get] (with or without [out]) and every
    [set] on it throws the length error before any native call: the
    accessor is unusable until [Mesh.attribute] has filled in its
    fields. *)
Theorem accessor_constructor_types (type : Z) :
  (0 <= type <= 8 ->
   exists a,
     constructor type = inr a
     /\ _componentCount a = 0
     /\ (_bufferType a = Uint16 <-> type = 5 \/ type = 7)
     /\ (_bufferType a = Float32 <-> type <> 5 /\ type <> 7)
     /\ (forall index out (w : World),
           get a index out w
           = Threw (Error (not_a_multiple
                             (Z.of_nat (Datatypes.length out)) 0)) w)
     /\ (forall index (w : World),
           get_default a index w = Threw (Error (not_a_multiple 0 0)) w)
     /\ (forall i v (w : World),
           set a i v w = Threw (Error (not_a_multiple (array_length v) 0)) w))
  /\ (~ 0 <= type <= 8 ->
      constructor type
      = inl (Error ("Invalid attribute accessor type: " +:+ pretty type))).
Proof.
  split.
  - intros Ht.
    assert (type = 0 \/ type = 1 \/ type = 2 \/ type = 3 \/ type = 4
            \/ type = 5 \/ type = 6 \/ type = 7 \/ type = 8) as Cases by lia.
    assert (forall a, _componentCount a = 0 -> length a = 0 ->
              (forall index out (w : World),
                 get a index out w
                 = Threw (Error (not_a_multiple
                                   (Z.of_nat (Datatypes.length out)) 0)) w)
              /\ (forall index (w : World),
                    get_default a index w
                    = Threw (Error (not_a_multiple 0 0)) w)
              /\ (forall i v (w : World),
                    set a i v w
                    = Threw (Error (not_a_multiple (array_length v) 0)) w))
      as Unusable.
    { intros a Hc Hl. split; [| split].
      - intros. apply get_zero_components. exact Hc.
      - intros. unfold get_default, createArray, bind. rewrite Hc, Hl. simpl.
        rewrite get_zero_components by exact Hc. reflexivity.
      - intros. unfold set. rewrite Hc. reflexivity. }
    destruct Cases as [-> | [-> | [-> | [-> | [-> | [-> | [-> | [-> | ->]]]]]]]];
      eexists; (split; [reflexivity |]); (split; [reflexivity |]);
      (split; [simpl; split; intros; try discriminate; try lia; try reflexivity |]);
      (split; [simpl; split; intros; try discriminate; try lia; try reflexivity |]);
      apply Unusable; reflexivity.
  - intros Ht. unfold constructor.
    rewrite bool_decide_eq_false_2.
    + rewrite bool_decide_eq_false_2; [reflexivity |].
      intros Hin. cbv [MeshAttribute.JointId MeshAttribute.SecondaryJointId]
        in Hin.
      repeat (apply elem_of_cons in Hin as [-> | Hin]; [lia |]).
      by apply elem_of_nil in Hin.
    + intros Hin.
      cbv [MeshAttribute.Position MeshAttribute.Normal
             MeshAttribute.TextureCoordinate MeshAttribute.Tangent
             MeshAttribute.Color MeshAttribute.JointWeight
             MeshAttribute.SecondaryJointWeight] in Hin.
      repeat (apply elem_of_cons in Hin as [-> | Hin]; [lia |]).
      by apply elem_of_nil in Hin.
Qed.

Lemma get_returns_or_RangeError (this : t) (index : Z)
    (out : list (Value number)) (w : World) :
  _componentCount this <> 0 ->
  (_componentCount this | Z.of_nat (Datatypes.length out)) ->
  returns_or_RangeError (get this index out w).
Proof.
  intros Hnz Hn. unfold get.
  rewrite length_check_passes by assumption. unfold bind at 1.
  pose proof (_tempBufferGetter_outcome this
                (Z.of_nat (Datatypes.length out)) w) as E.
  destruct (_tempBufferGetter this _ w) as [dest w1 | e w1]; [| exact E].
  unfold bind, call, gets, ret.
  destruct (native_call _ _ _) as [[r e] h]. exact I.
Qed.

Lemma get_returns_length (this : t) (index : Z)
    (out out' : list (Value number)) (w w' : World) :
  get this index out w = Ok out' w' ->
  Datatypes.length out' = Datatypes.length out.
Proof.
  intros E. unfold get in E.
  destruct (JS.neq_zero _); [discriminate |].
  unfold bind at 1 in E.
  destruct (_tempBufferGetter this _ w) as [dest w1 | e w1]; [| discriminate].
  unfold bind, call, gets, ret in E.
  destruct (native_call _ _ _) as [[r e] h]. injection E as <- <-.
  rewrite length_map, length_seqZ. lia.
Qed.

(** X13. [get(index)] without [out] reads at most one vertex: for a
    component count of at least 1 the default array has
    [min(1, length) * componentCount] elements, so the length check
    passes, and when the call returns the result has exactly that many
    elements: one vertex, or nothing for an attribute of length 0. *)
Theorem accessor_get_default_one_vertex (this : t) (index : Z) (w : World) :
  1 <= _componentCount this -> 0 <= length this ->
  returns_or_RangeError (get_default this index w)
  /\ forall out w',
       get_default this index w = Ok out w' ->
       Z.of_nat (Datatypes.length out)
       = Z.min 1 (length this) * _componentCount this.
Proof.
  intros Hcc Hlen.
  set (count := if length this <? 1 then length this else 1).
  assert (count = Z.min 1 (length this)) as Hcount.
  { unfold count. destruct (Z.ltb_spec (length this) 1); lia. }
  assert (get_default this index w
          = get this index
              (replicate (Z.to_nat (count * _componentCount this))
                 (VNumber (of_Z 0))) w) as E.
  { unfold get_default, createArray, bind. fold count.
    destruct (Z.ltb_spec (count * _componentCount this) 0); [nia |].
    reflexivity. }
  rewrite E.
  assert (Z.of_nat (Datatypes.length
            (replicate (Z.to_nat (count * _componentCount this))
               (VNumber (number := number) (of_Z 0))))
          = count * _componentCount this) as Hl.
  { rewrite length_replicate. apply Z2Nat.id. nia. }
  split.
  - apply get_returns_or_RangeError.
    + lia.
    + rewrite Hl. exists count. reflexivity.
  - intros out w' G. apply get_returns_length in G.
    rewrite <- Hcount, <- Hl. lia.
Qed.

End AccessorShape.

Lemma accessor_get_default_one_vertex_witness :
  exists out w',
    MeshAttributeAccessor.get_default position_accessor 0 world_1kb = Ok out w'
    /\ Z.of_nat (length out) = 3.
Proof.
  destruct (MeshAttributeAccessor.get_default position_accessor 0 world_1kb)
    as [out w' | e w'] eqn:E; [| vm_compute in E; discriminate].
  exists out, w'. split; [reflexivity |].
  apply (proj2 (accessor_get_default_one_vertex position_accessor 0 world_1kb
                  ltac:(simpl; lia) ltac:(simpl; lia)) out w' E).
Defined.

(** ** Material proxy: ordinary properties, staging, reads of set parameters *)

Section MaterialMore.

Context {number Engine : Type} `{JSNumber number} `{NativeRuntime number Engine}
  `{Material.Environment number Engine}.

Local Abbreviation World := (World number Engine).
Local Abbreviation Target := (Material.Target number).

Lemma own_property_define_own_eq (target : Target) (prop : string)
    (value : Value number) :
  Material.own_property (Material.define_own prop value target) prop
  = Some value.
Proof.
  unfold Material.define_own, Material.own_property.
  destruct (String.eqb prop "_index") eqn:E1; simpl; rewrite ?E1;
    [reflexivity |].
  destruct (String.eqb prop "_definition") eqn:E2; simpl; rewrite ?E1, ?E2;
    [reflexivity |].
  apply lookup_insert_eq.
Qed.

Lemma own_property_define_own_ne (target : Target) (prop prop' : string)
    (value : Value number) :
  prop' <> prop ->
  Material.own_property (Material.define_own prop value target) prop'
  = Material.own_property target prop'.
Proof.
  intros Hne. unfold Material.define_own, Material.own_property.
  destruct (String.eqb_spec prop "_index") as [-> | N1]; simpl.
  - apply String.eqb_neq in Hne. rewrite Hne. reflexivity.
  - destruct (String.eqb_spec prop "_definition") as [-> | N2]; simpl.
    + destruct (String.eqb prop' "_index"); [reflexivity |].
      apply String.eqb_neq in Hne. rewrite Hne. reflexivity.
    + destruct (String.eqb prop' "_index"); [reflexivity |].
      destruct (String.eqb prop' "_definition"); [reflexivity |].
      apply lookup_insert_ne. congruence.
Qed.

Lemma Prototype_define_own (target : Target) (prop : string)
    (value : Value number) :
  Material.Prototype (Material.define_own prop value target)
  = Material.Prototype target.
Proof.
  unfold Material.define_own.
  destruct (String.eqb prop "_index"); [reflexivity |].
  destruct (String.eqb prop "_definition"); reflexivity.
Qed.

Lemma property_define_own_ne (target : Target) (prop prop' : string)
    (value : Value number) :
  prop' <> prop ->
  Material.property (Material.define_own prop value target) prop'
  = Material.property target prop'.
Proof.
  intros Hne. unfold Material.property.
  rewrite own_property_define_own_ne by assumption. reflexivity.
Qed.

(** X14. On an instance with the prototype chain it was constructed
    with, a name that is not a parameter of the material's definition and
    not an inherited accessor ([shader], [__proto__]), nor [_definition]
    itself, behaves like a plain field: assigning it makes no native call,
    writes or creates the own property and returns [true]; reading it back
    returns the value; the other own properties are kept and every other
    name outside the definition reads as before, except that [shader]
    follows an assignment to [_index], which its getter reads. The
    accessor [shader] has no setter: assigning it throws a TypeError and
    changes nothing. *)
Theorem Material_plain_property_round_trip (target : Target) (prop : string)
    (value : Value number) (w : World) definition :
  _materialDefinitions (_WL w) (Material.property target "_definition")
  = Some definition ->
  definition !! prop = None -> prop <> "_definition" ->
  Material.Prototype target = None ->
  prop <> "shader" -> prop <> "__proto__" ->
  let target' := Material.define_own prop value target in
  Material.set target prop value w = Ok (true, target') w
  /\ Material.own_property target' prop = Some value
  /\ Material.get target' prop w = Ok (Material.RValue value) w
  /\ (forall prop',
        prop' <> prop ->
        Material.own_property target' prop'
        = Material.own_property target prop')
  /\ (forall prop',
        prop' <> prop -> definition !! prop' = None ->
        (prop = "_index" -> prop' <> "shader") ->
        Material.get target' prop' w = Material.get target prop' w)
  /\ (definition !! "shader" = None ->
      Material.own_property target "shader" = None ->
      Material.set target "shader" value w
      = Threw (TypeError "Cannot set property shader of #<Material> which has only a getter")
          w).
Proof.
  intros Hd Hp Hne HP Hs Hpr. cbv zeta.
  assert (Material.definition_of (Material.define_own prop value target) w
          = Ok definition w) as Hd'.
  { apply definition_of_found.
    rewrite property_define_own_ne by congruence. exact Hd. }
  split; [| split; [| split; [| split; [| split]]]].
  - unfold Material.set. unfold bind at 1.
    rewrite (definition_of_found _ _ _ Hd). rewrite Hp.
    unfold Material.target_set, bind.
    destruct (Material.own_property target prop); [reflexivity |].
    rewrite HP. apply String.eqb_neq in Hs, Hpr. rewrite Hs, Hpr.
    reflexivity.
  - apply own_property_define_own_eq.
  - unfold Material.get. unfold bind at 1. rewrite Hd', Hp.
    unfold Material.target_get. rewrite own_property_define_own_eq.
    reflexivity.
  - intros prop' Hne'. apply own_property_define_own_ne. exact Hne'.
  - intros prop' Hne' Hp' Hsh. unfold Material.get, bind.
    rewrite Hd', (definition_of_found _ _ _ Hd), Hp'.
    unfold Material.target_get.
    rewrite own_property_define_own_ne by exact Hne'.
    destruct (Material.own_property target prop'); [reflexivity |].
    rewrite Prototype_define_own, HP.
    destruct (String.eqb prop' "constructor"); [reflexivity |].
    destruct (String.eqb_spec prop' "shader") as [-> | N]; [| reflexivity].
    unfold Material.shader.
    rewrite property_define_own_ne; [reflexivity |].
    intros <-. apply Hsh; reflexivity.
  - intros Hps Hown. unfold Material.set. unfold bind at 1.
    rewrite (definition_of_found _ _ _ Hd). rewrite Hps.
    unfold Material.target_set, bind. rewrite Hown, HP. reflexivity.
Qed.


(** X16. A parameter the runtime reports as set can be read only for the
    types UnsignedInt, Int, Float and Sampler: for any other type tag,
    Font included, the read throws an "Invalid type" error after the
    native call. Assigning to a parameter whose tag is outside the enum
    (not 0 to 4) is a silent no-op: the handler returns [true] without any
    native call. *)
Theorem Material_unreadable_types (target : Target) (prop : string)
    (w : World) definition param :
  _materialDefinitions (_WL w) (Material.property target "_definition")
  = Some definition ->
  definition !! prop = Some param ->
  ~ 0 <= param_type param <= 3 ->
  let c := _wl_material_get_param_value
             (Material.property target "_index") (param_index param)
             (_tempMem (temp w)) in
  ((native_call c (engine (native w)) (HEAP (native w))).1.1 <> 0 ->
   exists w',
     Material.get target prop w
     = Threw (Error ("Invalid type [object Object] on parameter "
                     +:+ pretty (param_index param)
                     +:+ " for material "
                     +:+ ToString (HEAP (native w'))
                           (Material.property target "_index"))) w'
     /\ calls (native w') = calls (native w) ++ [c])
  /\ (param_type param <> MaterialParamType.Font ->
      forall value, Material.set target prop value w = Ok (true, target) w).
Proof.
  intros Hd Hp Ht. cbv zeta.
  assert ((param_type param =? MaterialParamType.UnsignedInt) = false) as E0
    by (apply Z.eqb_neq; unfold MaterialParamType.UnsignedInt; lia).
  assert ((param_type param =? MaterialParamType.Int) = false) as E1
    by (apply Z.eqb_neq; unfold MaterialParamType.Int; lia).
  assert ((param_type param =? MaterialParamType.Float) = false) as E2
    by (apply Z.eqb_neq; unfold MaterialParamType.Float; lia).
  assert ((param_type param =? MaterialParamType.Sampler) = false) as E3
    by (apply Z.eqb_neq; unfold MaterialParamType.Sampler; lia).
  split.
  - intros Hr. unfold Material.get. unfold bind at 1.
    rewrite (definition_of_found _ _ _ Hd). rewrite Hp.
    unfold Material.param_value, bind, call, gets, throw. simpl.
    destruct (native_call _ _ _) as [[r e] h]. simpl in Hr.
    destruct (Z.eqb_spec r 0); [contradiction |].
    rewrite E0, E1, E2, E3. simpl.
    match goal with |- context [Threw _ ?W] => exists W end.
    split; reflexivity.
  - intros Hf value. unfold Material.set. unfold bind at 1.
    rewrite (definition_of_found _ _ _ Hd). rewrite Hp.
    rewrite E0, E1, E2, E3. simpl.
    destruct (Z.eqb_spec (param_type param) MaterialParamType.Font);
      [contradiction | reflexivity].
Qed.

End MaterialMore.

Section MaterialAliasing.

Context {number Engine : Type} `{JSNumber number} `{NativeRuntime number Engine}
  `{Material.Environment number Engine}.

Local Abbreviation World := (World number Engine).
Local Abbreviation Target := (Material.Target number).

Lemma element_same_window (h : Heap) (a b : TypedArray) (j : Z) :
  elementType a = elementType b -> byteOffset a = byteOffset b ->
  0 <= j < len a -> j < len b ->
  element h a j = element h b j.
Proof.
  intros Ht Ho Ha Hb. unfold element. rewrite Ht, Ho.
  destruct (Z.leb_spec 0 j); [| lia].
  destruct (Z.ltb_spec j (len a)); [| lia].
  destruct (Z.ltb_spec j (len b)); [| lia]. reflexivity.
Qed.

(** X17. The array returned for a Float parameter with more than one
    component is not a copy but a view on the start of the temporary
    memory. The next staging overwrites it: after a later assignment of an
    array [xs] to a Float parameter, element [j] of the array returned
    earlier reads as the float32 bits of [xs[j]]. *)
Theorem Material_vector_result_aliases_staging (target : Target)
    (prop prop' : string) (w : World) definition param param' r e h :
  _materialDefinitions (_WL w) (Material.property target "_definition")
  = Some definition ->
  definition !! prop = Some param ->
  param_type param = MaterialParamType.Float ->
  param_componentCount param <> 1 ->
  definition !! prop' = Some param' ->
  param_type param' = MaterialParamType.Float ->
  native_call
    (_wl_material_get_param_value
       (Material.property target "_index") (param_index param)
       (_tempMem (temp w)))
    (engine (native w)) (HEAP (native w)) = (r, e, h) ->
  r <> 0 ->
  temp_views_consistent (temp w) ->
  view_in_heap h (_tempMemFloat (temp w)) ->
  _tempMem (temp w) mod 4 = 0 ->
  0 <= param_componentCount param <= len (_tempMemFloat (temp w)) ->
  exists a w1,
    Material.get target prop w = Ok (Material.RValue (VTypedArray a)) w1
    /\ a = mkTypedArray Float32 (_tempMem (temp w)) (param_componentCount param)
    /\ HEAP (native w1) = h
    /\ forall xs,
         exists staged w2,
           Material.set target prop' (VArray xs) w1 = Ok (true, target) w2
           /\ HEAP (native w2)
              = (native_call
                   (_wl_material_set_param_value_float
                      (Material.property target "_index") (param_index param')
                      (_tempMem (temp w))
                      (VNumber (of_Z (Z.of_nat (length xs)))))
                   (engine (native w1)) staged).2
           /\ forall (j : nat) x,
                xs !! j = Some x -> Z.of_nat j < param_componentCount param ->
                element staged a (Z.of_nat j) = Some (f32_store x mod 2 ^ 32).
Proof.
  intros Hd Hp Ht Hcc Hp' Ht' N Hr Hc Hv Ha Hn.
  pose proof Hc as (_ & Hf & _).
  assert (byteOffset (_tempMemFloat (temp w)) = _tempMem (temp w)
          /\ elementType (_tempMemFloat (temp w)) = Float32) as [Hoff Hty]
    by (rewrite Hf; split; reflexivity).
  destruct Hv as (Hv0 & Hv1 & Hv2). rewrite Hoff, Hty in Hv2. simpl in Hv2.
  rewrite Hoff in Hv0.
  eexists _, _. split.
  { unfold Material.get. unfold bind at 1.
    rewrite (definition_of_found _ _ _ Hd). rewrite Hp.
    unfold Material.param_value, bind, call, gets. simpl. rewrite N. simpl.
    destruct (Z.eqb_spec r 0); [contradiction |]. rewrite Ht. simpl.
    destruct (Z.eqb_spec (param_componentCount param) 1); [contradiction |].
    unfold new_view, new_TypedArray. simpl. rewrite Ha. simpl.
    destruct (Z.leb_spec 0 (_tempMem (temp w))); [| lia].
    destruct (Z.leb_spec 0 (param_componentCount param)); [| lia].
    destruct (Z.leb_spec (_tempMem (temp w) + param_componentCount param * 4)
                (byteLength h)); [| lia].
    simpl. reflexivity. }
  split; [reflexivity |]. split; [reflexivity |].
  intros xs.
  exists (write_all h (_tempMemFloat (temp w)) 0 xs).
  unfold Material.set. unfold bind at 1.
  rewrite definition_of_found with (definition := definition) by exact Hd.
  rewrite Hp', Ht'. simpl.
  unfold bind, call, gets, modify, ret. simpl. rewrite ?N. simpl.
  destruct (native_call (_wl_material_set_param_value_float _ _ _ _) _ _)
    as [[r' e'] h'] eqn:N'.
  eexists. split; [reflexivity |]. simpl. split; [reflexivity |].
  intros j x Hx Hj.
  rewrite (element_same_window _ _ (_tempMemFloat (temp w)));
    try (simpl; lia); try (simpl; congruence).
  pose proof (write_all_element xs h (_tempMemFloat (temp w)) 0 j x) as R.
  rewrite Z.add_0_l in R. rewrite R, ?Hty; try reflexivity; try lia;
    try exact Hx.
  unfold view_in_heap. rewrite Hoff, Hty. simpl. lia.
Qed.

End MaterialAliasing.

Lemma Material_plain_property_round_trip_witness :
  Material.set phong_material "tag" (VNumber 42) material_world
  = Ok (true, Material.define_own "tag" (VNumber 42) phong_material)
      material_world
  /\ Material.get (Material.define_own "tag" (VNumber 42) phong_material)
       "tag" material_world
     = Ok (Material.RValue (VNumber 42)) material_world.
Proof.
  destruct (Material_plain_property_round_trip phong_material "tag"
              (VNumber 42) material_world phong_definition
              eq_refl eq_refl ltac:(discriminate) eq_refl
              ltac:(discriminate) ltac:(discriminate))
    as (Es & _ & Eg & _).
  split; [exact Es | exact Eg].
Defined.


Lemma Material_unreadable_types_witness :
  exists w',
    @Material.get Z unit Z_number reporting_runtime plain_environment
      phong_material "font" material_world
    = Threw (Error "Invalid type [object Object] on parameter 3 for material 5")
        w'.
Proof.
  destruct (proj1 (@Material_unreadable_types Z unit Z_number
                     reporting_runtime plain_environment
                     phong_material "font" material_world
                     phong_definition
                     (mkMaterialParam 3 MaterialParamType.Font 1)
                     eq_refl eq_refl
                     ltac:(cbv [param_type MaterialParamType.Font]; lia)))
    as (w' & E & _).
  - simpl. discriminate.
  - exists w'. exact E.
Defined.

Lemma Material_vector_result_aliases_staging_witness :
  exists a w1 staged w2,
    @Material.get Z unit Z_number reporting_runtime plain_environment
      phong_material "diffuseColor" material_world
    = Ok (Material.RValue (VTypedArray a)) w1
    /\ @Material.set Z unit Z_number reporting_runtime plain_environment
         phong_material "diffuseColor" (VArray [3; 1; 4; 1]) w1
       = Ok (true, phong_material) w2
    /\ element staged a 2 = Some 4.
Proof.
  destruct (@Material_vector_result_aliases_staging Z unit Z_number
              reporting_runtime plain_environment
              phong_material "diffuseColor" "diffuseColor"
              material_world phong_definition
              (mkMaterialParam 1 MaterialParamType.Float 4)
              (mkMaterialParam 1 MaterialParamType.Float 4)
              1 tt (HEAP (native material_world))
              eq_refl eq_refl eq_refl ltac:(simpl; lia) eq_refl eq_refl
              eq_refl ltac:(lia))
    as (a & w1 & E & _ & _ & Hx).
  - vm_compute. repeat split; discriminate.
  - vm_compute. repeat split; discriminate.
  - reflexivity.
  - vm_compute. split; discriminate.
  - destruct (Hx [3; 1; 4; 1]) as (staged & w2 & E2 & _ & Hs).
    exists a, w1, staged, w2. split; [exact E |]. split; [exact E2 |].
    exact (Hs 2%nat 4 eq_refl ltac:(simpl; lia)).
Defined.

(** ** Ray hits: alignment, missing counter, layout of the block *)

Lemma ToInt32_mod_4 (z : Z) : JS.ToInt32 z mod 4 = z mod 4.
Proof.
  unfold JS.ToInt32.
  pose proof (Z.div_mod (z + 2 ^ 31) (2 ^ 32) ltac:(lia)) as D.
  replace ((z + 2 ^ 31) mod 2 ^ 32 - 2 ^ 31)
    with (z + (- 2 ^ 30 * ((z + 2 ^ 31) / 2 ^ 32)) * 4) by lia.
  apply Z.mod_add. lia.
Qed.

Lemma band_3 (ptr : Z) : JS.band ptr 3 = ptr mod 4.
Proof.
  unfold JS.band. change (JS.ToInt32 3) with (Z.ones 2).
  rewrite Z.land_ones by lia. change (2 ^ 2) with 4. apply ToInt32_mod_4.
Qed.

(** X18. The constructor accepts a pointer exactly when it is a multiple
    of 4 (the test [(ptr & 3) == 0], wrap-around of [&] included) and
    otherwise fails with the misaligned-pointer message. For an accepted
    pointer the index [ptr / 4 + 30] of the hit counter is an integer, so
    the counter is the 32-bit word at byte offset 120 of the block. *)
Theorem RayHit_constructor_alignment (ptr : Z) :
  (ptr mod 4 = 0 ->
   RayHit.constructor ptr = inr (RayHit.mk ptr)
   /\ forall h,
        RayHit.counter h (RayHit.mk ptr)
        = element h (HEAPU32 h) (ptr / 4 + 30)
        /\ (ptr / 4 + 30) * 4 = ptr + 120)
  /\ (ptr mod 4 <> 0 ->
      RayHit.constructor ptr = inl (Error RayHit.MISALIGNED_MSG)).
Proof.
  unfold RayHit.constructor. rewrite band_3. split.
  - intros Ha. rewrite Ha. simpl. split; [reflexivity |].
    intros h. unfold RayHit.counter. simpl. rewrite Ha. simpl.
    split; [reflexivity |].
    pose proof (Z.div_mod ptr 4 ltac:(lia)). lia.
  - intros Ha. destruct (Z.eqb_spec (ptr mod 4) 0); [contradiction |].
    reflexivity.
Qed.

Lemma counter_None_iff (h : Heap) (this : RayHit.t) :
  RayHit.counter h this = None
  <-> ~ (RayHit._ptr this mod 4 = 0 /\ 0 <= RayHit._ptr this + 120
         /\ RayHit._ptr this + 124 <= byteLength h).
Proof.
  unfold RayHit.counter.
  destruct (Z.eqb_spec (RayHit._ptr this mod 4) 0) as [Ha | Ha];
    [| split; [intros _ [? _]; contradiction | reflexivity]].
  pose proof (Z.div_mod (RayHit._ptr this) 4 ltac:(lia)) as D.
  rewrite Ha in D.
  pose proof (Z.div_mod (byteLength h) 4 ltac:(lia)) as DL.
  pose proof (Z.mod_pos_bound (byteLength h) 4 ltac:(lia)) as BL.
  unfold element, HEAPU32. simpl.
  destruct (Z.leb_spec 0 (RayHit._ptr this / 4 + 30));
    [| simpl; split; [intros _; lia | reflexivity]].
  destruct (Z.ltb_spec (RayHit._ptr this / 4 + 30) (byteLength h / 4));
    [| simpl; split; [intros _; lia | reflexivity]].
  simpl. unfold load, in_heap.
  destruct (Z.leb_spec 0 (0 + (RayHit._ptr this / 4 + 30) * 4)); [| lia].
  destruct (Z.leb_spec (0 + (RayHit._ptr this / 4 + 30) * 4 + 4)
              (byteLength h)); [| lia].
  simpl. split; [discriminate |]. intros Hn. exfalso. apply Hn. lia.
Qed.

(** X19. [hitCount] is NaN exactly when the pointer is misaligned or the
    counter word at offset 120 of the block is not inside the heap. In
    that case, as when the counter is 0, the loops of [locations] and
    [normals] do not run: both return an empty array and construct no
    view, so they cannot throw. *)
Theorem RayHit_without_counter (h : Heap) (this : RayHit.t) :
  (RayHit.hitCount h this = None
   <-> ~ (RayHit._ptr this mod 4 = 0 /\ 0 <= RayHit._ptr this + 120
          /\ RayHit._ptr this + 124 <= byteLength h))
  /\ (RayHit.hitCount h this = None \/ RayHit.hitCount h this = Some 0 ->
      RayHit.locations h this = inr [] /\ RayHit.normals h this = inr []).
Proof.
  split.
  - rewrite <- counter_None_iff. unfold RayHit.hitCount.
    destruct (RayHit.counter h this); simpl; split; congruence.
  - unfold RayHit.locations, RayHit.normals.
    intros [-> | ->]; simpl; split; reflexivity.
Qed.

(** X20. For a hit block lying in the heap at an aligned address,
    [distances] is a view of [hitCount] floats at offset 96, and the three
    getters carve disjoint parts out of the block: every location view
    lies in bytes 0 to 47, every normal view in bytes 48 to 95, the
    distances in bytes 96 to 111, all inside the heap and below the hit
    counter at offset 120. *)
Theorem RayHit_block_layout (h : Heap) (this : RayHit.t) :
  0 <= RayHit._ptr this -> RayHit._ptr this mod 4 = 0 ->
  RayHit._ptr this + 124 <= byteLength h ->
  let p := RayHit._ptr this in
  let within (lo hi : Z) (a : TypedArray) :=
    p + lo <= byteOffset a
    /\ byteOffset a + len a * BYTES_PER_ELEMENT (elementType a) <= p + hi
    /\ view_in_heap h a in
  exists n ls ns ds,
    RayHit.hitCount h this = Some n /\ 0 <= n <= 4
    /\ RayHit.locations h this = inr ls
    /\ RayHit.normals h this = inr ns
    /\ RayHit_distances h this = inr ds
    /\ ds = mkTypedArray Float32 (p + 96) n
    /\ Forall (within 0 48) ls
    /\ Forall (within 48 96) ns
    /\ within 96 112 ds.
Proof.
  intros Hp Ha Hl. cbv zeta.
  destruct (counter_in_block h this Hp Ha Hl) as (c & Hc & Hload).
  pose proof (load_bounds _ _ _ _ Hload) as Hb.
  assert (RayHit.hitCount h this = Some (Z.min c 4)) as Hh.
  { unfold RayHit.hitCount. rewrite Hc. reflexivity. }
  assert (0 <= Z.min c 4 <= 4) as Hn by lia.
  assert ((RayHit._ptr this + 48 * 2) mod 4 = 0) as Ha96.
  { replace (RayHit._ptr this + 48 * 2) with (RayHit._ptr this + 24 * 4)
      by lia. rewrite Z.mod_add by lia. exact Ha. }
  assert ((RayHit._ptr this + 48) mod 4 = 0) as Ha48.
  { replace (RayHit._ptr this + 48) with (RayHit._ptr this + 12 * 4) by lia.
    rewrite Z.mod_add by lia. exact Ha. }
  exists (Z.min c 4). eexists _, _, _.
  split; [exact Hh |]. split; [exact Hn |].
  unfold RayHit.locations, RayHit.normals, RayHit_distances.
  rewrite Hh. simpl RayHit.iterations. simpl default.
  rewrite !push_views_in_heap by (try assumption; lia).
  unfold new_TypedArray. simpl BYTES_PER_ELEMENT. rewrite Ha96.
  destruct (Z.leb_spec 0 (RayHit._ptr this + 48 * 2)); [| lia].
  destruct (Z.leb_spec 0 (Z.min c 4)); [| lia].
  destruct (Z.leb_spec (RayHit._ptr this + 48 * 2 + Z.min c 4 * 4)
              (byteLength h)); [| lia].
  simpl. split; [reflexivity |]. split; [reflexivity |].
  split; [reflexivity |]. split; [f_equal; lia |].
  rewrite Z2Nat.id by lia.
  split; [| split].
  - apply Forall_map. apply Forall_forall. intros i Hi.
    apply elem_of_seqZ in Hi. unfold view_in_heap. simpl. lia.
  - apply Forall_map. apply Forall_forall. intros i Hi.
    apply elem_of_seqZ in Hi. unfold view_in_heap. simpl. lia.
  - unfold view_in_heap. simpl. lia.
Qed.

Lemma RayHit_block_layout_witness :
  exists ds,
    RayHit_distances ray_heap (RayHit.mk 16) = inr ds
    /\ ds = mkTypedArray Float32 112 4.
Proof.
  destruct (RayHit_block_layout ray_heap (RayHit.mk 16))
    as (n & ls & ns & ds & Hh & _ & _ & _ & Hd & Hds & _).
  - simpl. lia.
  - reflexivity.
  - vm_compute. discriminate.
  - vm_compute in Hh. injection Hh as <-.
    exists ds. split; [exact Hd | exact Hds].
Defined.

(** ** Equality of wrappers *)

Lemma loose_eq_refl (a : Handle) : loose_eq a a = true.
Proof. destruct a; simpl; [apply Z.eqb_refl | reflexivity | reflexivity]. Qed.

Lemma loose_eq_sym (a b : Handle) : loose_eq a b = loose_eq b a.
Proof. destruct a, b; simpl; try reflexivity. apply Z.eqb_sym. Qed.

Lemma loose_eq_trans (a b c : Handle) :
  loose_eq a b = true -> loose_eq b c = true -> loose_eq a c = true.
Proof.
  destruct a, b, c; simpl; try discriminate; try reflexivity.
  rewrite !Z.eqb_eq. congruence.
Qed.

Section EqualsMore.

Context {number Engine : Type} `{NativeRuntime number Engine}.

Local Abbreviation World := (World number Engine).

(** X21. [equals] is an equivalence on wrappers, for components and for
    objects: reflexive, symmetric and transitive. Wrappers that were
    destroyed all fall into one class: two components compare equal after
    [destroy()] on both, whatever manager and id each had wrapped (their
    fields are [undefined == undefined]), and so do two destroyed
    objects. *)
Theorem equals_is_equivalence_and_merges_destroyed (w : World) :
  (forall a, Component.equals a (ref a) = true)
  /\ (forall a b, Component.equals a (ref b) = Component.equals b (ref a))
  /\ (forall a b c,
        Component.equals a (ref b) = true ->
        Component.equals b (ref c) = true ->
        Component.equals a (ref c) = true)
  /\ (forall a, Object.equals a (ref a) = true)
  /\ (forall a b, Object.equals a (ref b) = Object.equals b (ref a))
  /\ (forall a b c,
        Object.equals a (ref b) = true -> Object.equals b (ref c) = true ->
        Object.equals a (ref c) = true)
  /\ (forall r1 r2 c1 c2,
        r1 <> r2 ->
        components (wrappers w) !! r1 = Some c1 ->
        components (wrappers w) !! r2 = Some c2 ->
        exists w1 w2 c1' c2',
          Component.destroy r1 w = Ok tt w1
          /\ Component.destroy r2 w1 = Ok tt w2
          /\ components (wrappers w2) !! r1 = Some c1'
          /\ components (wrappers w2) !! r2 = Some c2'
          /\ Component.equals c1' (ref c2') = true)
  /\ (forall r1 r2 o1 o2,
        r1 <> r2 ->
        objects (wrappers w) !! r1 = Some o1 ->
        objects (wrappers w) !! r2 = Some o2 ->
        exists w1 w2 o1' o2',
          Object.destroy r1 w = Ok tt w1
          /\ Object.destroy r2 w1 = Ok tt w2
          /\ objects (wrappers w2) !! r1 = Some o1'
          /\ objects (wrappers w2) !! r2 = Some o2'
          /\ Object.equals o1' (ref o2') = true).
Proof.
  split; [| split; [| split; [| split; [| split; [| split; [| split]]]]]].
  - intros a. simpl. rewrite !loose_eq_refl. reflexivity.
  - intros a b. simpl.
    rewrite (loose_eq_sym (_manager a)), (loose_eq_sym (_id a)). reflexivity.
  - intros a b c. simpl. rewrite !andb_true_iff.
    intros [M1 I1] [M2 I2]. split; eapply loose_eq_trans; eassumption.
  - intros a. simpl. apply loose_eq_refl.
  - intros a b. simpl. apply loose_eq_sym.
  - intros a b c. simpl. apply loose_eq_trans.
  - intros r1 r2 c1 c2 Hne H1 H2.
    destruct (Component_destroy_world r1 c1 w H1)
      as (w1 & E1 & Hc1 & _).
    assert (components (wrappers w1) !! r2 = Some c2) as H2'.
    { rewrite Hc1, list_lookup_insert_ne by assumption. exact H2. }
    destruct (Component_destroy_world r2 c2 w1 H2')
      as (w2 & E2 & Hc2 & _).
    eexists w1, w2, _, _. split; [exact E1 |]. split; [exact E2 |].
    split.
    { rewrite Hc2, list_lookup_insert_ne by congruence.
      rewrite Hc1. apply list_lookup_insert_eq.
      eapply lookup_lt_Some; eassumption. }
    split.
    { rewrite Hc2. apply list_lookup_insert_eq.
      eapply lookup_lt_Some; eassumption. }
    reflexivity.
  - intros r1 r2 o1 o2 Hne H1 H2.
    destruct (Object_destroy_world r1 o1 w H1) as (w1 & E1 & Ho1 & _).
    assert (objects (wrappers w1) !! r2 = Some o2) as H2'.
    { rewrite Ho1, list_lookup_insert_ne by assumption. exact H2. }
    destruct (Object_destroy_world r2 o2 w1 H2') as (w2 & E2 & Ho2 & _).
    eexists w1, w2, _, _. split; [exact E1 |]. split; [exact E2 |].
    split.
    { rewrite Ho2, list_lookup_insert_ne by congruence.
      rewrite Ho1. apply list_lookup_insert_eq.
      eapply lookup_lt_Some; eassumption. }
    split.
    { rewrite Ho2. apply list_lookup_insert_eq.
      eapply lookup_lt_Some; eassumption. }
    reflexivity.
Qed.

End EqualsMore.

(** ** Mesh attribute accessor: what [set] stages *)

Section AccessorStaging.

Context {number Engine : Type} `{JSNumber number} `{NativeRuntime number Engine}.

Local Abbreviation World := (World number Engine).

Import MeshAttributeAccessor.

Lemma requireTempMem_views_in_heap (s : Z) (w w1 : World) :
  temp_views_consistent (temp w) ->
  view_in_heap (HEAP (native w)) (_tempMemFloat (temp w)) ->
  view_in_heap (HEAP (native w)) (_tempMemUint16 (temp w)) ->
  s <= 2 ^ 31 - 1024 ->
  requireTempMem s w = Ok tt w1 ->
  view_in_heap (HEAP (native w1)) (_tempMemFloat (temp w1))
  /\ view_in_heap (HEAP (native w1)) (_tempMemUint16 (temp w1)).
Proof.
  intros Hc Hf H16 Hs E.
  destruct (Z.le_gt_cases s (_tempMemSize (temp w))) as [Hle | Hgt].
  - rewrite (requireTempMem_enough s w Hle) in E. injection E as <-.
    split; assumption.
  - unfold requireTempMem, bind, gets in E.
    destruct (Z.leb_spec s (_tempMemSize (temp w))); [lia |].
    pose proof (grow_in_1kb_increments s) as G. cbv zeta in G.
    apply allocateTempMemory_returns in E.
    destruct E as (Hn & Ef & _ & _ & E16 & _ & Hp & _ & Hpos & Hfit).
    set (n := JS.Math_ceil (JS.div s 1024) * 1024) in *.
    assert (0 <= n / 4 /\ n / 4 * 4 <= n) as H4.
    { pose proof (Z.div_mod n 4 ltac:(lia)).
      pose proof (Z.mod_pos_bound n 4 ltac:(lia)). split; [| lia].
      apply Z.div_pos; lia. }
    assert (0 <= n / 2 /\ n / 2 * 2 <= n) as H2.
    { pose proof (Z.div_mod n 2 ltac:(lia)).
      pose proof (Z.mod_pos_bound n 2 ltac:(lia)). split; [| lia].
      apply Z.div_pos; lia. }
    unfold view_in_heap. rewrite Ef, E16. simpl.
    rewrite !shr_small by lia. change (2 ^ 2) with 4. change (2 ^ 1) with 2.
    split; (split; [lia |]); (split; lia).
Qed.

Lemma _tempBufferGetter_view (this : t) (n : Z) (dest : TypedArray)
    (w w1 : World) :
  0 <= n -> _tempBufferGetter this n w = Ok dest w1 ->
  exists s,
    requireTempMem s w = Ok tt w1 /\ s <= n * 4
    /\ (dest = _tempMemUint16 (temp w1) \/ dest = _tempMemFloat (temp w1)).
Proof.
  intros Hn E.
  unfold _tempBufferGetter, getTempBufferU16, getTempBufferF32, bind in E.
  destruct (_bufferType this);
    match type of E with context [requireTempMem ?s w] =>
      destruct (requireTempMem s w) as [[] w2 | e w2] eqn:R;
        [| discriminate];
      unfold gets in E; injection E as <- <-; exists s
    end;
    (split; [exact R |]); (split; [lia |]); tauto.
Qed.

(** X22. [set(i, values)] with an array that owns its elements stages
    them before the native call: with consistent views lying in the heap,
    the source handed to the runtime is the start of the temporary block,
    and in the heap the runtime receives every element [j] of the
    temporary view reads back as [values[j]] in the view's element format
    (float32 bits, or the low 16 bits for the joint id attributes). *)
Theorem accessor_set_stages_values (this : t) (i : Z) (xs : list number)
    (w w' : World) (r : t) :
  temp_views_consistent (temp w) ->
  view_in_heap (HEAP (native w)) (_tempMemFloat (temp w)) ->
  view_in_heap (HEAP (native w)) (_tempMemUint16 (temp w)) ->
  Z.of_nat (Datatypes.length xs) * 4 <= 2 ^ 31 - 1024 ->
  set this i (OwnArray xs) w = Ok r w' ->
  let n := Z.of_nat (Datatypes.length xs) in
  let bytesPerElt := BYTES_PER_ELEMENT (_bufferType this) in
  exists dest w1 staged,
    _tempBufferGetter this n w = Ok dest w1
    /\ staged = write_all (HEAP (native w1)) dest 0 xs
    /\ byteOffset dest = _tempMem (temp w')
    /\ (elementType dest = Float32 \/ elementType dest = Uint16)
    /\ HEAP (native w')
       = (native_call
            (_wl_mesh_set_attribute_values
               (_attribute this) (_componentCount this * bytesPerElt)
               (_tempMem (temp w')) (bytesPerElt * n) (_formatSize this)
               (_offset this + i * _stride this) (_stride this))
            (engine (native w1)) staged).2
    /\ forall (j : nat) x,
         xs !! j = Some x ->
         element staged dest (Z.of_nat j)
         = Some (encode (elementType dest) x
                 mod 256 ^ BYTES_PER_ELEMENT (elementType dest)).
Proof.
  intros Hc Hf H16 Hmax E. cbv zeta. unfold set in E.
  destruct (JS.neq_zero _); [discriminate |].
  unfold bind at 1 2 in E.
  destruct (_tempBufferGetter this _ w) as [dest w1 | e w1] eqn:G;
    [| discriminate].
  pose proof G as G'.
  apply _tempBufferGetter_view in G'; [| simpl; lia].
  destruct G' as (s & R & Hs & Hdest).
  destruct (requireTempMem_consistent s w w1 Hc ltac:(simpl in Hs; lia) R)
    as [Hc1 _].
  destruct (requireTempMem_views_in_heap s w w1 Hc Hf H16
              ltac:(simpl in Hs; lia) R) as [Hf1 H161].
  pose proof Hc1 as (_ & Ef & _ & _ & E16 & _).
  assert (view_in_heap (HEAP (native w1)) dest
          /\ byteOffset dest = _tempMem (temp w1)
          /\ (elementType dest = Float32 \/ elementType dest = Uint16))
    as (Hv & Hoff & Hty).
  { destruct Hdest as [-> | ->].
    - split; [exact H161 |]. rewrite E16. simpl. split; [reflexivity | tauto].
    - split; [exact Hf1 |]. rewrite Ef. simpl. split; [reflexivity | tauto]. }
  unfold bind at 1 in E. unfold TypedArray_set in E.
  destruct (Z.ltb_spec (len dest) (Z.of_nat (Datatypes.length xs)));
    [discriminate |].
  unfold modify, bind, call, ret in E. simpl in E. rewrite Hoff in E.
  destruct (native_call _ _ _) as [[r0 e] h] eqn:N.
  injection E as <- <-. simpl.
  exists dest, w1, (write_all (HEAP (native w1)) dest 0 xs).
  split; [reflexivity |]. split; [reflexivity |]. split; [exact Hoff |].
  split; [exact Hty |]. split; [rewrite N; reflexivity |].
  intros j x Hx.
  pose proof (write_all_element xs (HEAP (native w1)) dest 0 j x Hv
                ltac:(lia) Hx) as W.
  rewrite Z.add_0_l in W. apply W.
  apply lookup_lt_Some in Hx. lia.
Qed.

End AccessorStaging.

Lemma accessor_set_stages_values_witness :
  exists dest w1 staged w',
    MeshAttributeAccessor._tempBufferGetter position_accessor 3 world_1kb
    = Ok dest w1
    /\ MeshAttributeAccessor.set position_accessor 1 (OwnArray [5; 6; 7])
         world_1kb = Ok position_accessor w'
    /\ element staged dest 1 = Some 6.
Proof.
  destruct (MeshAttributeAccessor.set position_accessor 1 (OwnArray [5; 6; 7])
              world_1kb) as [r w' | e w'] eqn:E;
    [| vm_compute in E; discriminate].
  destruct (accessor_set_stages_values position_accessor 1 [5; 6; 7]
              world_1kb w' r)
    as (dest & w1 & staged & G & _ & _ & Hty & _ & Hs).
  - vm_compute. repeat split; discriminate.
  - vm_compute. repeat split; discriminate.
  - vm_compute. repeat split; discriminate.
  - simpl. lia.
  - exact E.
  - exists dest, w1, staged, w'. split; [exact G |]. split.
    + pose proof E as E'. vm_compute in E'. injection E' as <- _.
      reflexivity.
    + pose proof (Hs 1%nat 6 eq_refl) as R.
      change (Z.of_nat 1) with 1 in R. rewrite R.
      pose proof G as G'. vm_compute in G'. injection G' as <- _.
      reflexivity.
Defined.
